(** * ChatWidget: the NDJSON stream reader and the reservation-proposal
      state machine of [src/web/src/components/ChatWidget.tsx]

    The development embeds the component's callbacks as functions over an
    explicit widget state.  React state cells ([useState]) and refs
    ([useRef]) become record fields; each callback becomes a function from
    state to state; an [await] splits an async callback into the part that
    runs before the request is sent and the part that runs once the
    outcome is known.

    Conventions of the embedding:
    - JavaScript strings are represented by their UTF-8 encoding (a Rocq
      [string] is a sequence of bytes), so that the literals of the source
      file appear verbatim;
    - the platform functions the component calls ([TextDecoder], [trim],
      [split], [JSON.parse], [Boolean], [String]) are written out after
      their standards; numbers are kept abstract;
    - a TypeError raised while a line of the stream is handled is a result
      [None]: it is raised before the first assignment of the handler, and
      the [catch] of [processLine] only logs it;
    - [crypto.randomUUID()] is a supply of pairwise distinct identifiers;
    - [createdAt], the [AbortController] and the scrolling effects, which
      no callback reads, are left out;
    - a callback reads [isOpen] in the state it runs in, where the
      component reads the value of the render that created the callback;
      the two differ, in [hasUnread] only, when the panel is toggled while
      a request is awaited. *)

From Stdlib Require Import Strings.String Strings.Ascii Lists.List.
From Stdlib Require Import Bool.Bool Arith.Arith NArith.NArith Lia.
Import ListNotations.
Open Scope list_scope.
Open Scope string_scope.

Set Implicit Arguments.
Set Warnings "-register-all".

(** ** Bytes and text *)

Definition LF : ascii := ascii_of_nat 10.
Arguments LF : simpl never.

(** One byte as text. *)
Definition str1 (c : ascii) : string := String c EmptyString.

(** Text from a list of byte values. *)
Definition bytes (l : list nat) : string :=
  string_of_list_ascii (map ascii_of_nat l).

Definition nonEmpty (s : string) : bool :=
  match s with EmptyString => false | String _ _ => true end.

(** Decimal rendering of a natural number, as a template literal renders an
    integer-valued number such as [response.status]. *)
Definition digitChar (d : nat) : ascii := ascii_of_nat (48 + d).

Fixpoint decimalFuel (fuel n : nat) (acc : string) : string :=
  match fuel with
  | O => acc
  | S fuel' =>
      let acc' := String (digitChar (n mod 10)) acc in
      if (n / 10 =? 0)%nat then acc' else decimalFuel fuel' (n / 10) acc'
  end.

Definition decimal (n : nat) : string := decimalFuel (S n) n EmptyString.

(** ** JSON values as JavaScript sees them *)

(** A JavaScript number enters the component only through [Boolean(n)] and
    through conversion to a string; a number is represented by these two
    observations. *)
Record JsNumber := { num_truthy : bool; num_string : string }.

Inductive JValue :=
| JNull
| JBool (b : bool)
| JNum (n : JsNumber)
| JStr (s : string)
| JArr (items : list JValue)
| JObj (fields : list (string * JValue)).

(** A JavaScript value that may be [undefined]. *)
Definition JSVal := option JValue.
Definition undefined : JSVal := None.

(** Own property of a parsed object; a later duplicate key overrides an
    earlier one.  None of the property names the component reads is
    inherited from a prototype, so any other receiver yields [undefined]. *)
Definition lookupField (k : string) (fs : list (string * JValue)) : JSVal :=
  fold_left (fun acc kv => if (fst kv =? k)%string then Some (snd kv) else acc)
            fs None.

Definition getProp (v : JValue) (k : string) : JSVal :=
  match v with
  | JObj fs => lookupField k fs
  | _ => undefined
  end.

(** [v?.k] *)
Definition optProp (v : JSVal) (k : string) : JSVal :=
  match v with
  | None | Some JNull => undefined
  | Some x => getProp x k
  end.

(** [k in v] for a receiver that is an object. *)
Definition hasProp (k : string) (v : JValue) : bool :=
  match v with
  | JObj fs => existsb (fun kv => (fst kv =? k)%string) fs
  | _ => false
  end.

(** [typeof v === 'object' && v !== null] *)
Definition isObject (v : JValue) : bool :=
  match v with
  | JObj _ | JArr _ => true
  | _ => false
  end.

(** [v ?? d] *)
Definition nullish (v : JSVal) (d : JValue) : JValue :=
  match v with
  | None | Some JNull => d
  | Some x => x
  end.

(** [Boolean(v)], also the truthiness test of [v ? a : b] and [v && w]. *)
Definition truthy (v : JValue) : bool :=
  match v with
  | JNull => false
  | JBool b => b
  | JNum n => num_truthy n
  | JStr s => nonEmpty s
  | JArr _ | JObj _ => true
  end.

Definition js_Boolean (v : JSVal) : bool :=
  match v with
  | None => false
  | Some x => truthy x
  end.

(** [String(v)].  [None] stands for a thrown TypeError: a parsed object
    that carries an own [toString] property has no callable conversion
    method left.  Arrays are joined with commas, a [null] element giving
    the empty text. *)
Fixpoint js_String (v : JValue) : option string :=
  match v with
  | JNull => Some "null"
  | JBool true => Some "true"
  | JBool false => Some "false"
  | JNum n => Some (num_string n)
  | JStr s => Some s
  | JArr items =>
      (fix join (l : list JValue) : option string :=
         match l with
         | [] => Some ""
         | x :: rest =>
             let first := match x with JNull => Some "" | _ => js_String x end in
             match rest with
             | [] => first
             | _ :: _ =>
                 match first, join rest with
                 | Some a, Some b => Some (a ++ "," ++ b)
                 | _, _ => None
                 end
             end
         end) items
  | JObj fs =>
      if existsb (fun kv => (fst kv =? "toString")%string) fs
      then None
      else Some "[object Object]"
  end.

(** String concatenation [s + v], where [v] may be [undefined]. *)
Definition js_concat (s : string) (v : JSVal) : option string :=
  match v with
  | None => Some (s ++ "undefined")
  | Some x =>
      match js_String x with
      | Some t => Some (s ++ t)
      | None => None
      end
  end.

(** ** Data model ([src/web/src/types/chat.ts]) *)

Inductive MessageRole := user | assistant | system.
Inductive MessageType := text | status.

(** Message identifiers: the literal ['welcome'] of [INITIAL_MESSAGE], or a
    value drawn from [crypto.randomUUID()].  The generator is modelled as a
    supply of pairwise distinct values. *)
Inductive MessageId := welcome | uuid (n : nat).

Definition MessageId_eqb (a b : MessageId) : bool :=
  match a, b with
  | welcome, welcome => true
  | uuid n, uuid m => (n =? m)%nat
  | _, _ => false
  end.

(** [createdAt] ([Date.now()]) is written but never read by the component
    and is left out. *)
Record ChatMessage := {
  id : MessageId;
  role : MessageRole;
  content : string;
  type : MessageType
}.

Record ReservationProposal := {
  resource_id : string;
  start_time : string;
  end_time : option string;
  reservation_id : option string;
  note : option string
}.

Inductive ReservationDecisionAction := confirm | cancel.

Definition action_eqb (a b : ReservationDecisionAction) : bool :=
  match a, b with
  | confirm, confirm | cancel, cancel => true
  | _, _ => false
  end.

(** Stream events, read at their declared types. *)
Inductive StreamEvent :=
| StreamTokenEvent (content : string)
| StreamMessageEvent (content : string)
| ToolEventPayload (tool_name : string) (output : JSVal)
| StreamDoneEvent.

(** ** Widget state *)

Record Widget := {
  isOpen : bool;
  hasUnread : bool;
  messages : list ChatMessage;
  inputValue : string;
  isStreaming : bool;
  activeAssistantMessageId : option MessageId;
  sessionId : string;
  pendingProposal : option ReservationProposal;
  decisionLoading : option ReservationDecisionAction;
  queuedProposalRef : option ReservationProposal;
  nextUuid : nat
}.

Definition INITIAL_MESSAGE : ChatMessage :=
  {| id := welcome;
     role := assistant;
     content := "您好，我是预约助手，很高兴为您服务。告诉我您想预约的设备与时间即可开始。";
     type := text |}.

Definition initialWidget (session : string) : Widget :=
  {| isOpen := false;
     hasUnread := false;
     messages := [INITIAL_MESSAGE];
     inputValue := "";
     isStreaming := false;
     activeAssistantMessageId := None;
     sessionId := session;
     pendingProposal := None;
     decisionLoading := None;
     queuedProposalRef := None;
     nextUuid := 0 |}.

Definition setMessages (f : list ChatMessage -> list ChatMessage) (w : Widget) : Widget :=
  {| isOpen := isOpen w; hasUnread := hasUnread w; messages := f (messages w);
     inputValue := inputValue w; isStreaming := isStreaming w;
     activeAssistantMessageId := activeAssistantMessageId w;
     sessionId := sessionId w; pendingProposal := pendingProposal w;
     decisionLoading := decisionLoading w;
     queuedProposalRef := queuedProposalRef w; nextUuid := nextUuid w |}.

Definition setIsOpen (b : bool) (w : Widget) : Widget :=
  {| isOpen := b; hasUnread := hasUnread w; messages := messages w;
     inputValue := inputValue w; isStreaming := isStreaming w;
     activeAssistantMessageId := activeAssistantMessageId w;
     sessionId := sessionId w; pendingProposal := pendingProposal w;
     decisionLoading := decisionLoading w;
     queuedProposalRef := queuedProposalRef w; nextUuid := nextUuid w |}.

Definition setHasUnread (b : bool) (w : Widget) : Widget :=
  {| isOpen := isOpen w; hasUnread := b; messages := messages w;
     inputValue := inputValue w; isStreaming := isStreaming w;
     activeAssistantMessageId := activeAssistantMessageId w;
     sessionId := sessionId w; pendingProposal := pendingProposal w;
     decisionLoading := decisionLoading w;
     queuedProposalRef := queuedProposalRef w; nextUuid := nextUuid w |}.

Definition setInputValue (s : string) (w : Widget) : Widget :=
  {| isOpen := isOpen w; hasUnread := hasUnread w; messages := messages w;
     inputValue := s; isStreaming := isStreaming w;
     activeAssistantMessageId := activeAssistantMessageId w;
     sessionId := sessionId w; pendingProposal := pendingProposal w;
     decisionLoading := decisionLoading w;
     queuedProposalRef := queuedProposalRef w; nextUuid := nextUuid w |}.

Definition setIsStreaming (b : bool) (w : Widget) : Widget :=
  {| isOpen := isOpen w; hasUnread := hasUnread w; messages := messages w;
     inputValue := inputValue w; isStreaming := b;
     activeAssistantMessageId := activeAssistantMessageId w;
     sessionId := sessionId w; pendingProposal := pendingProposal w;
     decisionLoading := decisionLoading w;
     queuedProposalRef := queuedProposalRef w; nextUuid := nextUuid w |}.

Definition setActiveAssistantMessageId (i : option MessageId) (w : Widget) : Widget :=
  {| isOpen := isOpen w; hasUnread := hasUnread w; messages := messages w;
     inputValue := inputValue w; isStreaming := isStreaming w;
     activeAssistantMessageId := i;
     sessionId := sessionId w; pendingProposal := pendingProposal w;
     decisionLoading := decisionLoading w;
     queuedProposalRef := queuedProposalRef w; nextUuid := nextUuid w |}.

Definition setPendingProposal (p : option ReservationProposal) (w : Widget) : Widget :=
  {| isOpen := isOpen w; hasUnread := hasUnread w; messages := messages w;
     inputValue := inputValue w; isStreaming := isStreaming w;
     activeAssistantMessageId := activeAssistantMessageId w;
     sessionId := sessionId w; pendingProposal := p;
     decisionLoading := decisionLoading w;
     queuedProposalRef := queuedProposalRef w; nextUuid := nextUuid w |}.

Definition setDecisionLoading (a : option ReservationDecisionAction) (w : Widget) : Widget :=
  {| isOpen := isOpen w; hasUnread := hasUnread w; messages := messages w;
     inputValue := inputValue w; isStreaming := isStreaming w;
     activeAssistantMessageId := activeAssistantMessageId w;
     sessionId := sessionId w; pendingProposal := pendingProposal w;
     decisionLoading := a;
     queuedProposalRef := queuedProposalRef w; nextUuid := nextUuid w |}.

(** [queuedProposalRef.current = p] *)
Definition setQueuedProposalRef (p : option ReservationProposal) (w : Widget) : Widget :=
  {| isOpen := isOpen w; hasUnread := hasUnread w; messages := messages w;
     inputValue := inputValue w; isStreaming := isStreaming w;
     activeAssistantMessageId := activeAssistantMessageId w;
     sessionId := sessionId w; pendingProposal := pendingProposal w;
     decisionLoading := decisionLoading w;
     queuedProposalRef := p; nextUuid := nextUuid w |}.

(** [crypto.randomUUID()] *)
Definition randomUUID (w : Widget) : MessageId * Widget :=
  (uuid (nextUuid w),
   {| isOpen := isOpen w; hasUnread := hasUnread w; messages := messages w;
      inputValue := inputValue w; isStreaming := isStreaming w;
      activeAssistantMessageId := activeAssistantMessageId w;
      sessionId := sessionId w; pendingProposal := pendingProposal w;
      decisionLoading := decisionLoading w;
      queuedProposalRef := queuedProposalRef w; nextUuid := S (nextUuid w) |}).

(** The floating button and the close button, followed by the effect
    that clears the unread mark of an open panel (lines 82-90). *)
Definition openPanel (b : bool) (w : Widget) : Widget :=
  let w1 := setIsOpen b w in
  if b then setHasUnread false w1 else w1.

(** ** Timeline primitives *)

Definition appendMessage (message : ChatMessage) (w : Widget) : Widget :=
  let w1 := setMessages (fun prev => prev ++ [message])%list w in
  match role message with
  | assistant => if negb (isOpen w) then setHasUnread true w1 else w1
  | _ => w1
  end.

Definition withContent (c : string) (msg : ChatMessage) : ChatMessage :=
  {| id := id msg; role := role msg; content := c; type := type msg |}.

Definition updateMessageContent (i : MessageId) (c : string) (w : Widget) : Widget :=
  setMessages
    (map (fun msg => if MessageId_eqb (id msg) i then withContent c msg else msg)) w.

(** [appendMessage({ id: crypto.randomUUID(), role, content, ..., type })] *)
Definition appendNew (r : MessageRole) (c : string) (t : MessageType) (w : Widget) : Widget :=
  let (i, w1) := randomUUID w in
  appendMessage {| id := i; role := r; content := c; type := t |} w1.

(** ** handleToolEvent *)

Definition MSG_FORMAT : string := "查询结果格式异常，暂无法展示预约选项。".
Definition MSG_UNAVAILABLE : string := "当前暂无符合条件的空闲资源，请尝试调整需求。".
Definition MSG_UPDATED : string := "预约已更新完成。".
Definition MSG_UPDATE_FAILED : string := "预约更新失败，请稍后重试或重新发起请求。".

(** [v ? String(v) : undefined]; the outer [option] is the TypeError. *)
Definition optionalString (v : JSVal) : option (option string) :=
  match v with
  | None => Some None
  | Some x =>
      if truthy x
      then match js_String x with
           | Some s => Some (Some s)
           | None => None
           end
      else Some None
  end.

(** The object literal of lines 110-121; the outer [option] is the
    TypeError, the inner one the [null] alternative. *)
Definition proposalOf (proposalRaw : JValue) : option (option ReservationProposal) :=
  if truthy proposalRaw && isObject proposalRaw
  then
    match js_String (nullish (getProp proposalRaw "resource_id") (JStr "")),
          js_String (nullish (getProp proposalRaw "start_time") (JStr "")),
          optionalString (getProp proposalRaw "end_time"),
          optionalString (getProp proposalRaw "reservation_id"),
          optionalString (getProp proposalRaw "note") with
    | Some r, Some s, Some e, Some i, Some n =>
        Some (Some {| resource_id := r; start_time := s; end_time := e;
                      reservation_id := i; note := n |})
    | _, _, _, _, _ => None
    end
  else Some None.

(** [proposal && proposal.resource_id && proposal.start_time] *)
Definition acceptable (proposal : option ReservationProposal) : bool :=
  match proposal with
  | Some p => nonEmpty (resource_id p) && nonEmpty (start_time p)
  | None => false
  end.

(** [typeof output.reason === 'string' ? output.reason : null] *)
Definition reasonOf (output : JValue) : option string :=
  match getProp output "reason" with
  | Some (JStr s) => Some s
  | _ => None
  end.

Definition orElse (r : option string) (fallback : string) : string :=
  match r with
  | Some s => s
  | None => fallback
  end.

(** [typeof output === 'object' && output !== null && k in output
     ? Boolean(output[k]) : false] *)
Definition flagOf (k : string) (output : JValue) : bool :=
  if isObject output && hasProp k output
  then js_Boolean (getProp output k)
  else false.

Definition handleAvailability (output0 : JSVal) (w : Widget) : option Widget :=
  let output := nullish output0 (JObj []) in
  let isAvailable := flagOf "available" output in
  if isAvailable then
    let proposalRaw := nullish (getProp output "proposal") output in
    match proposalOf proposalRaw with
    | None => None
    | Some proposal =>
        if acceptable proposal
        then Some (setPendingProposal None (setQueuedProposalRef proposal w))
        else Some (appendNew system MSG_FORMAT status
                     (setPendingProposal None (setQueuedProposalRef None w)))
    end
  else
    let w1 := setPendingProposal None (setQueuedProposalRef None w) in
    Some (appendNew system (orElse (reasonOf output) MSG_UNAVAILABLE) status w1).

Definition handleUpdateStatus (output0 : JSVal) (w : Widget) : Widget :=
  let output := nullish output0 (JObj []) in
  let success := flagOf "success" output in
  let reason := reasonOf output in
  if success then
    appendNew system MSG_UPDATED status
      (setPendingProposal None (setQueuedProposalRef None w))
  else
    appendNew system (orElse reason MSG_UPDATE_FAILED) status
      (setQueuedProposalRef None w).

(** The two [if] statements run in sequence; [None] is the TypeError
    raised while the proposal literal is built, before any state is
    touched. *)
Definition handleToolEvent (tool_name : string) (output : JSVal) (w : Widget)
  : option Widget :=
  match (if (tool_name =? "check_device_availability")%string
         then handleAvailability output w
         else Some w) with
  | None => None
  | Some w1 =>
      if (tool_name =? "update_reservation_status")%string
      then Some (handleUpdateStatus output w1)
      else Some w1
  end.

(** ** handleReservationDecision *)

Definition MSG_DISCARDED : string := "已取消本次预约建议，若需要可重新询问。".
Definition MSG_NO_START_TIME : string := "缺少预约时间，暂无法提交预约。".

(** The JSON body of the decision request. *)
Record DecisionPayload := {
  session_id : string;
  action : ReservationDecisionAction;
  payload_start_time : option string;
  payload_reservation_id : option string
}.

(** Truthiness of an optional string field. *)
Definition present (o : option string) : bool :=
  match o with
  | Some s => nonEmpty s
  | None => false
  end.

(** A value caught by a [catch] clause. *)
Inductive Thrown :=
| AbortError (message : string)
| ErrorObject (message : string)
| NotAnError.

(** The synchronous part of [handleReservationDecision], up to and
    including the call of [fetch]: the new state and the request sent, if
    any. *)
Definition handleReservationDecision (act : ReservationDecisionAction) (w : Widget)
  : Widget * option DecisionPayload :=
  match pendingProposal w with
  | None => (w, None)
  | Some p =>
      if action_eqb act cancel && negb (present (reservation_id p)) then
        (appendNew system MSG_DISCARDED status
           (setPendingProposal None (setQueuedProposalRef None w)), None)
      else if action_eqb act confirm && negb (nonEmpty (start_time p)) then
        (appendNew system MSG_NO_START_TIME status (setQueuedProposalRef None w), None)
      else
        (setDecisionLoading (Some act) w,
         Some {| session_id := sessionId w;
                 action := act;
                 payload_start_time :=
                   match act with
                   | confirm => Some (start_time p)
                   | cancel => None
                   end;
                 payload_reservation_id :=
                   match act with
                   | confirm => None
                   | cancel =>
                       if present (reservation_id p) then reservation_id p else None
                   end |})
  end.

(** What the awaited request comes to: [fetch] rejects, or a response
    arrives whose [json()] yields a value or rejects. *)
Inductive JsonResult :=
| JsonValue (v : JValue)
| JsonRejected (e : Thrown).

Inductive DecisionOutcome :=
| DecisionRejected (e : Thrown)
| DecisionResponse (status : nat) (body : JsonResult).

(** [response.ok] *)
Definition ok (status : nat) : bool := (200 <=? status)%nat && (status <=? 299)%nat.

Definition decisionCatch (e : Thrown) (w : Widget) : Widget :=
  appendNew system
    (match e with
     | AbortError m | ErrorObject m => "操作未完成：" ++ m
     | NotAnError => "操作未完成，发生未知错误。"
     end) status w.

(** [Boolean(payloadJson?.scheduler?.success)] *)
Definition schedulerSuccessOf (payloadJson : JValue) : bool :=
  js_Boolean (optProp (optProp (Some payloadJson) "scheduler") "success").

Definition decisionTry (payloadJson : JValue) (w : Widget) : Widget :=
  let assistantMessage :=
    match optProp (Some payloadJson) "assistant_message" with
    | Some (JStr s) => s
    | _ => ""
    end in
  let scheduler := optProp (Some payloadJson) "scheduler" in
  let schedulerSuccess := schedulerSuccessOf payloadJson in
  let schedulerReason :=
    match optProp scheduler "reason" with
    | Some (JStr s) => Some s
    | _ => None
    end in
  let w1 := if nonEmpty assistantMessage
            then appendNew assistant assistantMessage text w
            else w in
  if schedulerSuccess then
    setPendingProposal None (setQueuedProposalRef None w1)
  else
    match schedulerReason with
    | Some r => if nonEmpty r then appendNew system r status w1 else w1
    | None => w1
    end.

Definition decisionFinally (act : ReservationDecisionAction) (w : Widget) : Widget :=
  let w1 := setDecisionLoading None w in
  match act with
  | cancel => setQueuedProposalRef None (setPendingProposal None w1)
  | confirm => w1
  end.

(** The rest of [handleReservationDecision], run when the request
    settles: the [try] body after the [await], the [catch] and the
    [finally]. *)
Definition handleReservationDecision_settled
    (act : ReservationDecisionAction) (outcome : DecisionOutcome) (w : Widget) : Widget :=
  decisionFinally act
    match outcome with
    | DecisionRejected e => decisionCatch e w
    | DecisionResponse st body =>
        if negb (ok st)
        then decisionCatch (ErrorObject ("操作失败 (" ++ decimal st ++ ")")) w
        else match body with
             | JsonRejected e => decisionCatch e w
             | JsonValue payloadJson => decisionTry payloadJson w
             end
    end.

(** The reservation card (lines 470, 493-530): it is rendered only in
    the open panel and while a proposal is pending, and each button is
    disabled while its own action is loading.  A click on a button that is
    absent or disabled reaches no handler. *)
Definition buttonEnabled (act : ReservationDecisionAction) (w : Widget) : bool :=
  isOpen w
  && match pendingProposal w with
     | None => false
     | Some _ =>
         match decisionLoading w with
         | Some a => negb (action_eqb a act)
         | None => true
         end
     end.

Definition clickDecision (act : ReservationDecisionAction) (w : Widget)
  : Widget * option DecisionPayload :=
  if buttonEnabled act w then handleReservationDecision act w else (w, None).

(** ** TextDecoder('utf-8')

    The decoder of the Encoding standard, one byte at a time.  A decoded
    code point is represented by its UTF-8 encoding, so a well-formed
    sequence is passed on as it is and an ill-formed one is replaced by
    U+FFFD.  [pending] holds the bytes of the sequence under way,
    [bytesNeeded] counts the continuation bytes still missing, [lower] and
    [upper] bound the next continuation byte, and [bomSeen] records that
    the first code point of the stream has been seen (a leading U+FEFF is
    dropped). *)

Record Utf8Decoder := {
  pending : string;
  bytesNeeded : nat;
  lower : nat;
  upper : nat;
  bomSeen : bool
}.

Definition REPLACEMENT : string := bytes [239; 191; 189].
Definition BOM : string := bytes [239; 187; 191].

Definition idle (bom : bool) : Utf8Decoder :=
  {| pending := ""; bytesNeeded := 0; lower := 128; upper := 191; bomSeen := bom |}.

Definition newDecoder : Utf8Decoder := idle false.

(** Serialisation of one decoded code point. *)
Definition emit (cp : string) (bom : bool) : string :=
  if bom then cp else if (cp =? BOM)%string then "" else cp.

(** A byte met while no sequence is under way. *)
Definition startSequence (b : ascii) (bom : bool) : Utf8Decoder * string :=
  let n := nat_of_ascii b in
  if (n <=? 127)%nat then (idle true, emit (str1 b) bom)
  else if (194 <=? n)%nat && (n <=? 223)%nat then
    ({| pending := str1 b; bytesNeeded := 1; lower := 128; upper := 191;
        bomSeen := bom |}, "")
  else if (224 <=? n)%nat && (n <=? 239)%nat then
    ({| pending := str1 b; bytesNeeded := 2;
        lower := if (n =? 224)%nat then 160 else 128;
        upper := if (n =? 237)%nat then 159 else 191;
        bomSeen := bom |}, "")
  else if (240 <=? n)%nat && (n <=? 244)%nat then
    ({| pending := str1 b; bytesNeeded := 3;
        lower := if (n =? 240)%nat then 144 else 128;
        upper := if (n =? 244)%nat then 143 else 191;
        bomSeen := bom |}, "")
  else (idle true, emit REPLACEMENT bom).

Definition decodeByte (d : Utf8Decoder) (b : ascii) : Utf8Decoder * string :=
  match bytesNeeded d with
  | O => startSequence b (bomSeen d)
  | S k =>
      let n := nat_of_ascii b in
      if (n <? lower d)%nat || (upper d <? n)%nat then
        (* the sequence is cut short: U+FFFD, and the byte is read again *)
        let (d', out) := startSequence b true in
        (d', emit REPLACEMENT (bomSeen d) ++ out)
      else
        let sequence := pending d ++ str1 b in
        match k with
        | O => (idle true, emit sequence (bomSeen d))
        | S _ =>
            ({| pending := sequence; bytesNeeded := k; lower := 128; upper := 191;
                bomSeen := bomSeen d |}, "")
        end
  end.

(** [decoder.decode(value, { stream: true })] *)
Fixpoint decode (d : Utf8Decoder) (value : string) : Utf8Decoder * string :=
  match value with
  | EmptyString => (d, "")
  | String b rest =>
      let (d1, out1) := decodeByte d b in
      let (d2, out2) := decode d1 rest in
      (d2, out1 ++ out2)
  end.

(** [decoder.decode()]: the end of the stream. *)
Definition decodeEnd (d : Utf8Decoder) : string :=
  match bytesNeeded d with
  | O => ""
  | S _ => emit REPLACEMENT (bomSeen d)
  end.

(** ** String.prototype.trim and String.prototype.split *)

(** White space and line terminators of ECMAScript, UTF-8 encoded:
    U+0009..U+000D, U+0020, U+00A0, U+1680, U+2000..U+200A, U+2028, U+2029,
    U+202F, U+205F, U+3000, U+FEFF. *)
Definition WHITESPACE : list string :=
  (map (fun n => bytes [n]) [9; 10; 11; 12; 13; 32]
   ++ [bytes [194; 160]; bytes [225; 154; 128]]
   ++ map (fun k => bytes [226; 128; 128 + k]) (seq 0 11)
   ++ [bytes [226; 128; 168]; bytes [226; 128; 169]; bytes [226; 128; 175];
       bytes [226; 129; 159]; bytes [227; 128; 128]; bytes [239; 187; 191]])%list.

Fixpoint dropPrefix (p s : string) : option string :=
  match p, s with
  | EmptyString, _ => Some s
  | String a p', String b s' => if Ascii.eqb a b then dropPrefix p' s' else None
  | String _ _, EmptyString => None
  end.

Fixpoint dropAny (ps : list string) (s : string) : option string :=
  match ps with
  | [] => None
  | p :: ps' =>
      match dropPrefix p s with
      | Some s' => Some s'
      | None => dropAny ps' s
      end
  end.

Fixpoint dropAll (fuel : nat) (ps : list string) (s : string) : string :=
  match fuel with
  | O => s
  | S fuel' =>
      match dropAny ps s with
      | Some s' => dropAll fuel' ps s'
      | None => s
      end
  end.

Definition reverse (s : string) : string :=
  string_of_list_ascii (rev (list_ascii_of_string s)).

Definition trimStart (s : string) : string := dropAll (String.length s) WHITESPACE s.

Definition trimEnd (s : string) : string :=
  reverse (dropAll (String.length s) (map reverse WHITESPACE) (reverse s)).

Definition trim (s : string) : string := trimEnd (trimStart s).

(** [s.split('\n')]: never empty. *)
Fixpoint split (s : string) : list string :=
  match s with
  | EmptyString => [""]
  | String c rest =>
      if Ascii.eqb c LF then "" :: split rest
      else match split rest with
           | line :: lines => String c line :: lines
           | [] => [str1 c]
           end
  end.

(** ** The read loop of streamAssistantResponse (lines 262-285)

    The loop is stated over an arbitrary line handler; the component
    instantiates it with its [processLine].  A result of [reader.read()]
    carries a [value] exactly when [done] is false, so every chunk is
    decoded with [stream: true] and the end of the stream brings no
    bytes. *)

Section ReadLoop.
Variable S : Type.
Variable processLine : string -> S -> S.

Record Reader := {
  buffer : string;
  decoder : Utf8Decoder;
  handled : S
}.

(** [for (const rawLine of lines) { ... }] *)
Definition forLines (lines : list string) (s : S) : S :=
  fold_left
    (fun s rawLine =>
       let line := trim rawLine in
       if nonEmpty line then processLine line s else s)
    lines s.

(** One iteration with a chunk: [reader.read()] gave [{ value, done: false }]. *)
Definition onChunk (r : Reader) (value : string) : Reader :=
  let (d, decoded) := decode (decoder r) value in
  let lines := split (buffer r ++ decoded) in
  {| buffer := last lines "";
     decoder := d;
     handled := forLines (removelast lines) (handled r) |}.

Definition readChunks (chunks : list string) (r : Reader) : Reader :=
  fold_left onChunk chunks r.

(** After the loop: lines 281-285. *)
Definition onDone (r : Reader) : S :=
  let buffer' := buffer r ++ decodeEnd (decoder r) in
  let remaining := trim buffer' in
  if nonEmpty remaining then processLine remaining (handled r) else handled r.

Definition newReader (s : S) : Reader :=
  {| buffer := ""; decoder := newDecoder; handled := s |}.

Definition readBody (chunks : list string) (s : S) : S :=
  onDone (readChunks chunks (newReader s)).
End ReadLoop.

(** ** JSON.parse

    A lexer that reads the text one byte at a time, and a parser that
    reads the tokens one at a time with an explicit stack; both are total.
    [None] stands for the SyntaxError. *)

Inductive Token :=
| TLBrace | TRBrace | TLBracket | TRBracket | TColon | TComma
| TString (s : string)
| TNumber (literal : string)
| TTrue | TFalse | TNull.

(** A piece of a string literal: a byte of the text, or a UTF-16 code unit
    written as a [\uXXXX] escape. *)
Inductive StrItem :=
| Raw (b : ascii)
| Unit16 (u : N).

Definition byteN (n : N) : string := str1 (ascii_of_N n).

(** UTF-8 encoding of a code point; a lone surrogate is encoded like any
    other three-byte value. *)
Definition utf8 (cp : N) : string :=
  if (cp <? 128)%N then byteN cp
  else if (cp <? 2048)%N then
    byteN (192 + N.shiftr cp 6) ++ byteN (128 + N.land cp 63)
  else if (cp <? 65536)%N then
    byteN (224 + N.shiftr cp 12) ++ byteN (128 + N.land (N.shiftr cp 6) 63)
    ++ byteN (128 + N.land cp 63)
  else
    byteN (240 + N.shiftr cp 18) ++ byteN (128 + N.land (N.shiftr cp 12) 63)
    ++ byteN (128 + N.land (N.shiftr cp 6) 63) ++ byteN (128 + N.land cp 63).

Definition isHighSurrogate (u : N) : bool := (55296 <=? u)%N && (u <=? 56319)%N.
Definition isLowSurrogate (u : N) : bool := (56320 <=? u)%N && (u <=? 57343)%N.

Fixpoint encodeItems (l : list StrItem) : string :=
  match l with
  | [] => ""
  | Raw b :: rest => String b (encodeItems rest)
  | Unit16 hi :: rest =>
      match rest with
      | Unit16 lo :: rest' =>
          if isHighSurrogate hi && isLowSurrogate lo
          then utf8 (65536 + (hi - 55296) * 1024 + (lo - 56320))%N ++ encodeItems rest'
          else utf8 hi ++ encodeItems rest
      | _ => utf8 hi ++ encodeItems rest
      end
  end.

Definition isDigit (c : ascii) : bool :=
  let n := nat_of_ascii c in (48 <=? n)%nat && (n <=? 57)%nat.

Definition hexValue (c : ascii) : option N :=
  let n := N_of_ascii c in
  if (48 <=? n)%N && (n <=? 57)%N then Some (n - 48)%N
  else if (65 <=? n)%N && (n <=? 70)%N then Some (n - 55)%N
  else if (97 <=? n)%N && (n <=? 102)%N then Some (n - 87)%N
  else None.

(** The character an escape [\c] stands for. *)
Definition simpleEscape (c : ascii) : option ascii :=
  match nat_of_ascii c with
  | 34 => Some (ascii_of_nat 34)     (* quotation mark *)
  | 92 => Some (ascii_of_nat 92)     (* reverse solidus *)
  | 47 => Some (ascii_of_nat 47)     (* solidus *)
  | 98 => Some (ascii_of_nat 8)      (* b *)
  | 102 => Some (ascii_of_nat 12)    (* f *)
  | 110 => Some (ascii_of_nat 10)    (* n *)
  | 114 => Some (ascii_of_nat 13)    (* r *)
  | 116 => Some (ascii_of_nat 9)     (* t *)
  | _ => None
  end.

(** Number literals: an optional minus sign; a zero, or a non-zero digit
    followed by digits; an optional fraction (a point and at least one
    digit); an optional exponent (e or E, an optional sign, at least one
    digit). *)
Fixpoint dropDigits (s : string) : string :=
  match s with
  | String c rest => if isDigit c then dropDigits rest else s
  | EmptyString => s
  end.

Definition digits1 (s : string) : option string :=
  match s with
  | String c rest => if isDigit c then Some (dropDigits rest) else None
  | EmptyString => None
  end.

Definition exponentPart (s : string) : bool :=
  match s with
  | EmptyString => true
  | String e rest =>
      if (nat_of_ascii e =? 101)%nat || (nat_of_ascii e =? 69)%nat then
        let rest' :=
          match rest with
          | String sign r =>
              if (nat_of_ascii sign =? 43)%nat || (nat_of_ascii sign =? 45)%nat
              then r else rest
          | EmptyString => rest
          end in
        match digits1 rest' with
        | Some EmptyString => true
        | _ => false
        end
      else false
  end.

Definition fractionPart (s : string) : bool :=
  match s with
  | String c rest =>
      if (nat_of_ascii c =? 46)%nat then
        match digits1 rest with
        | Some rest' => exponentPart rest'
        | None => false
        end
      else exponentPart s
  | EmptyString => true
  end.

Definition isNumberLiteral (s : string) : bool :=
  let s1 :=
    match s with
    | String c rest => if (nat_of_ascii c =? 45)%nat then rest else s
    | EmptyString => s
    end in
  match s1 with
  | String c rest =>
      if (nat_of_ascii c =? 48)%nat then fractionPart rest
      else if isDigit c then fractionPart (dropDigits rest)
      else false
  | EmptyString => false
  end.

Inductive LexState :=
| LIdle
| LWord (seen : list ascii)
| LStr (items : list StrItem)
| LEsc (items : list StrItem)
| LHex (items : list StrItem) (digits : list N).

Definition isJsonSpace (c : ascii) : bool :=
  match nat_of_ascii c with
  | 9 | 10 | 13 | 32 => true
  | _ => false
  end.

Definition punctuation (c : ascii) : option Token :=
  match nat_of_ascii c with
  | 123 => Some TLBrace
  | 125 => Some TRBrace
  | 91 => Some TLBracket
  | 93 => Some TRBracket
  | 58 => Some TColon
  | 44 => Some TComma
  | _ => None
  end.

Section Parse.
(** The number a literal denotes. *)
Variable numberOfLiteral : string -> JsNumber.

Definition wordToken (seen : list ascii) : option Token :=
  let word := string_of_list_ascii (rev seen) in
  if (word =? "true")%string then Some TTrue
  else if (word =? "false")%string then Some TFalse
  else if (word =? "null")%string then Some TNull
  else if isNumberLiteral word then Some (TNumber word)
  else None.

(** The tokens are collected in reverse. *)
Definition lexOutside (tokens : list Token) (c : ascii)
  : option (list Token * LexState) :=
  if isJsonSpace c then Some (tokens, LIdle)
  else if (nat_of_ascii c =? 34)%nat then Some (tokens, LStr [])
  else match punctuation c with
       | Some t => Some (t :: tokens, LIdle)
       | None => Some (tokens, LWord [c])
       end.

Definition lexStep (st : list Token * LexState) (c : ascii)
  : option (list Token * LexState) :=
  let (tokens, state) := st in
  match state with
  | LIdle => lexOutside tokens c
  | LWord seen =>
      if isJsonSpace c || (nat_of_ascii c =? 34)%nat
         || match punctuation c with Some _ => true | None => false end
      then match wordToken seen with
           | Some t => lexOutside (t :: tokens) c
           | None => None
           end
      else Some (tokens, LWord (c :: seen))
  | LStr items =>
      if (nat_of_ascii c =? 34)%nat
      then Some (TString (encodeItems (rev items)) :: tokens, LIdle)
      else if (nat_of_ascii c =? 92)%nat then Some (tokens, LEsc items)
      else if (nat_of_ascii c <? 32)%nat then None
      else Some (tokens, LStr (Raw c :: items))
  | LEsc items =>
      if (nat_of_ascii c =? 117)%nat then Some (tokens, LHex items [])
      else match simpleEscape c with
           | Some x => Some (tokens, LStr (Raw x :: items))
           | None => None
           end
  | LHex items digits =>
      match hexValue c with
      | Some h =>
          match digits with
          | [a; b; d] =>
              Some (tokens, LStr (Unit16 (((a * 16 + b) * 16 + d) * 16 + h)%N :: items))
          | _ => Some (tokens, LHex items (digits ++ [h])%list)
          end
      | None => None
      end
  end.

Fixpoint lexFrom (st : list Token * LexState) (s : string)
  : option (list Token * LexState) :=
  match s with
  | EmptyString => Some st
  | String c rest =>
      match lexStep st c with
      | Some st' => lexFrom st' rest
      | None => None
      end
  end.

Definition lex (s : string) : option (list Token) :=
  match lexFrom ([], LIdle) s with
  | Some (tokens, LIdle) => Some (rev tokens)
  | Some (tokens, LWord seen) =>
      match wordToken seen with
      | Some t => Some (rev (t :: tokens))
      | None => None
      end
  | _ => None
  end.

(** An enclosing array or object under construction, its parts so far in
    reverse. *)
Inductive Frame :=
| InArr (items : list JValue)
| InObj (fields : list (string * JValue)) (key : string).

Inductive ParseState :=
| PValue (stack : list Frame)
| PArrFirst (stack : list Frame)
| PObjFirst (stack : list Frame)
| PKey (fields : list (string * JValue)) (stack : list Frame)
| PColon (fields : list (string * JValue)) (key : string) (stack : list Frame)
| PArrNext (items : list JValue) (stack : list Frame)
| PObjNext (fields : list (string * JValue)) (stack : list Frame)
| PEnd (v : JValue).

(** A value is complete: it goes to the frame on top of the stack. *)
Definition complete (v : JValue) (stack : list Frame) : ParseState :=
  match stack with
  | [] => PEnd v
  | InArr items :: stack' => PArrNext (v :: items) stack'
  | InObj fields key :: stack' => PObjNext ((key, v) :: fields) stack'
  end.

Definition beginValue (t : Token) (stack : list Frame) : option ParseState :=
  match t with
  | TString s => Some (complete (JStr s) stack)
  | TNumber l => Some (complete (JNum (numberOfLiteral l)) stack)
  | TTrue => Some (complete (JBool true) stack)
  | TFalse => Some (complete (JBool false) stack)
  | TNull => Some (complete JNull stack)
  | TLBracket => Some (PArrFirst stack)
  | TLBrace => Some (PObjFirst stack)
  | _ => None
  end.

Definition parseStep (st : ParseState) (t : Token) : option ParseState :=
  match st, t with
  | PValue stack, _ => beginValue t stack
  | PArrFirst stack, TRBracket => Some (complete (JArr []) stack)
  | PArrFirst stack, _ => beginValue t (InArr [] :: stack)
  | PObjFirst stack, TRBrace => Some (complete (JObj []) stack)
  | PObjFirst stack, TString k => Some (PColon [] k stack)
  | PKey fields stack, TString k => Some (PColon fields k stack)
  | PColon fields k stack, TColon => Some (PValue (InObj fields k :: stack))
  | PArrNext items stack, TComma => Some (PValue (InArr items :: stack))
  | PArrNext items stack, TRBracket => Some (complete (JArr (rev items)) stack)
  | PObjNext fields stack, TComma => Some (PKey fields stack)
  | PObjNext fields stack, TRBrace => Some (complete (JObj (rev fields)) stack)
  | _, _ => None
  end.

Fixpoint parseFrom (st : ParseState) (tokens : list Token) : option ParseState :=
  match tokens with
  | [] => Some st
  | t :: rest =>
      match parseStep st t with
      | Some st' => parseFrom st' rest
      | None => None
      end
  end.

Definition JSON_parse (s : string) : option JValue :=
  match lex s with
  | Some tokens =>
      match parseFrom (PValue []) tokens with
      | Some (PEnd v) => Some v
      | _ => None
      end
  | None => None
  end.
End Parse.

(** ** streamAssistantResponse *)

(** The two variables local to one call of [streamAssistantResponse]. *)
Record Turn := {
  assistantMessageId : option MessageId;
  assembledContent : string
}.

Definition newTurn : Turn := {| assistantMessageId := None; assembledContent := "" |}.

Definition ensureAssistantMessage (c : string) (st : Widget * Turn) : Widget * Turn :=
  let (w, t) := st in
  match assistantMessageId t with
  | None =>
      let (i, w1) := randomUUID w in
      (appendMessage {| id := i; role := assistant; content := c; type := text |}
         (setActiveAssistantMessageId (Some i) w1),
       {| assistantMessageId := Some i; assembledContent := assembledContent t |})
  | Some i => (updateMessageContent i c w, t)
  end.

Definition flushQueuedProposal (w : Widget) : Widget :=
  match queuedProposalRef w with
  | Some q => setQueuedProposalRef None (setPendingProposal (Some q) w)
  | None => w
  end.

(** The value that [JSON.parse] returned, read as a [StreamEvent].  [None]
    covers what has no effect: a value that matches no branch of
    [processLine] (among them a tool record whose [tool_name] is not a
    string, which matches no branch of [handleToolEvent]) and a TypeError
    raised before any assignment ([null.type], or a token content that
    cannot be converted to a string).  A token content is what [+=]
    appends.  The content of a message record is declared a string; one
    that is not is represented by its string conversion. *)
Definition eventOf (v : JValue) : option StreamEvent :=
  match v with
  | JObj _ =>
      match getProp v "type" with
      | Some (JStr kind) =>
          if (kind =? "token")%string then
            match js_concat "" (getProp v "content") with
            | Some c => Some (StreamTokenEvent c)
            | None => None
            end
          else if (kind =? "message")%string then
            match getProp v "content" with
            | Some (JStr c) => Some (StreamMessageEvent c)
            | other =>
                Some (StreamMessageEvent
                        match js_concat "" other with
                        | Some c => c
                        | None => "[object Object]"
                        end)
            end
          else if (kind =? "tool")%string then
            match getProp v "tool_name" with
            | Some (JStr name) => Some (ToolEventPayload name (getProp v "output"))
            | _ => None
            end
          else if (kind =? "done")%string then Some StreamDoneEvent
          else None
      | _ => None
      end
  | _ => None
  end.

(** The branches of [processLine] (lines 243-256). *)
Definition dispatch (event : StreamEvent) (st : Widget * Turn) : Widget * Turn :=
  let (w, t) := st in
  match event with
  | StreamTokenEvent c =>
      let assembled := assembledContent t ++ c in
      let t' := {| assistantMessageId := assistantMessageId t;
                   assembledContent := assembled |} in
      if nonEmpty assembled then ensureAssistantMessage assembled (w, t') else (w, t')
  | StreamMessageEvent c =>
      let t' := {| assistantMessageId := assistantMessageId t;
                   assembledContent := c |} in
      let (w1, t1) := ensureAssistantMessage c (w, t') in
      (flushQueuedProposal w1, t1)
  | ToolEventPayload name output =>
      match handleToolEvent name output w with
      | Some w' => (w', t)
      | None => (w, t)          (* caught and logged *)
      end
  | StreamDoneEvent => (flushQueuedProposal w, t)
  end.

Section Stream.
Variable numberOfLiteral : string -> JsNumber.

Definition processLine (line : string) (st : Widget * Turn) : Widget * Turn :=
  if negb (nonEmpty line) then st
  else
    match JSON_parse numberOfLiteral line with
    | None => st                (* caught and logged *)
    | Some v =>
        match eventOf v with
        | Some event => dispatch event st
        | None => st
        end
    end.

(** The [catch] clause (lines 287-302). *)
Definition MSG_FALLBACK : string := "抱歉，处理请求时出现问题，请稍后再试。".

Definition streamCatch (e : Thrown) (st : Widget * Turn) : Widget * Turn :=
  match e with
  | AbortError _ => st
  | _ =>
      let (w1, t1) :=
        match assistantMessageId (snd st) with
        | Some i => (updateMessageContent i MSG_FALLBACK (fst st), snd st)
        | None => ensureAssistantMessage MSG_FALLBACK st
        end in
      (appendNew system
         (match e with
          | ErrorObject m => "错误信息: " ++ m
          | _ => "未知错误"
          end) status w1, t1)
  end.

(** What the awaited [fetch] and the reads of the body come to: the chunks
    read, and the error that ended the reading, if any. *)
Inductive StreamOutcome :=
| StreamRejected (e : Thrown)
| StreamResponse (status : nat) (body : option (list string * option Thrown)).

Definition streamFinally (w : Widget) : Widget :=
  setActiveAssistantMessageId None (setIsStreaming false w).

Definition streamAssistantResponse (outcome : StreamOutcome) (w : Widget) : Widget :=
  let st := (setActiveAssistantMessageId None (setIsStreaming true w), newTurn) in
  streamFinally
    (fst
       match outcome with
       | StreamRejected e => streamCatch e st
       | StreamResponse code body =>
           if negb (ok code)
           then streamCatch (ErrorObject ("请求失败 (" ++ decimal code ++ ")")) st
           else
             match body with
             | None => streamCatch (ErrorObject "服务器未返回内容") st
             | Some (chunks, Some e) =>
                 streamCatch e (handled (readChunks processLine chunks (newReader st)))
             | Some (chunks, None) =>
                 let (w1, t1) := readBody processLine chunks st in
                 (flushQueuedProposal w1, t1)
             end
       end).

Definition processUserMessage (message : string) (outcome : StreamOutcome) (w : Widget)
  : Widget :=
  streamAssistantResponse outcome (appendNew user message text w).

Definition handleSubmit (outcome : StreamOutcome) (w : Widget) : Widget :=
  let trimmed := trim (inputValue w) in
  if negb (nonEmpty trimmed) || isStreaming w then w
  else processUserMessage trimmed outcome (setInputValue "" w).

Definition handleKeyDown (key : string) (shiftKey : bool) (outcome : StreamOutcome)
    (w : Widget) : Widget :=
  if (key =? "Enter")%string && negb shiftKey then handleSubmit outcome w else w.
End Stream.

(** A reading of number literals used to run closed examples: the literal
    itself as the text, and a non-zero digit before the exponent as the
    truth value. *)
Fixpoint anyNonZeroDigit (s : string) : bool :=
  match s with
  | EmptyString => false
  | String c rest =>
      if (nat_of_ascii c =? 101)%nat || (nat_of_ascii c =? 69)%nat then false
      else (isDigit c && negb (nat_of_ascii c =? 48)%nat) || anyNonZeroDigit rest
  end.

Definition literalNumber (literal : string) : JsNumber :=
  {| num_truthy := anyNonZeroDigit literal; num_string := literal |}.

(** Text written with apostrophes in place of quotation marks. *)
Fixpoint quoted (s : string) : string :=
  match s with
  | EmptyString => EmptyString
  | String c rest =>
      String (if (nat_of_ascii c =? 39)%nat then ascii_of_nat 34 else c) (quoted rest)
  end.

Definition NL : string := str1 LF.

(** ** Vocabulary of the statements *)

Fixpoint joinText (l : list string) : string :=
  match l with
  | [] => ""
  | s :: rest => s ++ joinText rest
  end.

(** The records, each followed by a line feed. *)
Definition unlines (records : list string) : string :=
  joinText (map (fun r => r ++ NL) records).

Fixpoint noLF (s : string) : bool :=
  match s with
  | EmptyString => true
  | String c rest => negb (Ascii.eqb c LF) && noLF rest
  end.

(** The decoder stands between two code points. *)
Definition atRest (d : Utf8Decoder) : bool :=
  (pending d =? "")%string && (bytesNeeded d =? 0)%nat
  && (lower d =? 128)%nat && (upper d =? 191)%nat.

Definition decodesToItself (bom : bool) (s : string) : bool :=
  let (d, out) := decode (idle bom) s in atRest d && (out =? s)%string.

(** Well-formed UTF-8 that the decoder passes on unchanged, at the start
    of the stream and later. *)
Definition isText (s : string) : bool :=
  decodesToItself false s && decodesToItself true s.

(** One record of the stream: a non-empty line of text without surrounding
    white space, as a JSON object is. *)
Definition isRecord (r : string) : bool :=
  isText r && noLF r && nonEmpty r && (trim r =? r)%string.

(** The lines the loop hands to its handler at the end of the stream for a
    residual buffer. *)
Definition residual (rest : string) : list string :=
  if nonEmpty (trim rest) then [trim rest] else [].

(** The number of proposals alive in the widget: the queued one and the
    pending one. *)
Definition count (o : option ReservationProposal) : nat :=
  match o with
  | Some _ => 1
  | None => 0
  end.

Definition liveProposals (w : Widget) : nat :=
  count (queuedProposalRef w) + count (pendingProposal w).

Definition complete_proposal (o : option ReservationProposal) : Prop :=
  match o with
  | Some p => resource_id p <> "" /\ start_time p <> ""
  | None => True
  end.

(** An availability output that queues the proposal [p]: it reports
    availability and carries, or is, an object with a non-empty
    [resource_id] and [start_time]. *)
Definition queues (output : JSVal) (p : ReservationProposal) : Prop :=
  let o := nullish output (JObj []) in
  flagOf "available" o = true
  /\ proposalOf (nullish (getProp o "proposal") o) = Some (Some p)
  /\ acceptable (Some p) = true.

(** A decision request that fails: the request is rejected, the status is
    not a success, the body cannot be read, or the scheduler reports no
    success. *)
Definition decisionFailed (outcome : DecisionOutcome) : bool :=
  match outcome with
  | DecisionRejected _ => true
  | DecisionResponse st body =>
      negb (ok st)
      || match body with
         | JsonRejected _ => true
         | JsonValue v => negb (schedulerSuccessOf v)
         end
  end.

(** Every identifier of the timeline was drawn before the next one. *)
Definition freshIds (w : Widget) : Prop :=
  forall m n, In m (messages w) -> id m = uuid n -> n < nextUuid w.

(** The assistant turn that a call of [streamAssistantResponse] opens in
    the state [w]. *)
Definition assistantTurn (w : Widget) (c : string) : ChatMessage :=
  {| id := uuid (nextUuid w); role := assistant; content := c; type := text |}.

Definition statusTurn (w : Widget) (c : string) : ChatMessage :=
  {| id := uuid (nextUuid w); role := system; content := c; type := status |}.

(** Token events applied in order. *)
Definition tokens (cs : list string) (st : Widget * Turn) : Widget * Turn :=
  fold_left (fun st c => dispatch (StreamTokenEvent c) st) cs st.

(** The widget once the turn has been opened with the text [a]. *)
Definition opened (w : Widget) (a : string) : Widget :=
  fst (ensureAssistantMessage a (w, newTurn)).

(** The state of a call of [streamAssistantResponse] that has received
    tokens amounting to the text [a], and nothing else. *)
Definition afterTokens (w : Widget) (a : string) : Widget * Turn :=
  if nonEmpty a
  then (opened w a,
        {| assistantMessageId := Some (uuid (nextUuid w)); assembledContent := a |})
  else (w, newTurn).

(** The invariant of the proposal state: a proposal that is queued or
    pending has a [resource_id] and a [start_time], and the two are never
    there together. *)
Definition Inv (w : Widget) : Prop :=
  complete_proposal (queuedProposalRef w)
  /\ complete_proposal (pendingProposal w)
  /\ liveProposals w <= 1.

(** ** The widget as a transition system

    One transition is what runs without interruption: a callback up to its
    first [await], or the continuation of an [await].  The local variables
    of a running [streamAssistantResponse] are not part of the widget
    state; a transition of the stream may start from any of them. *)

Section Transitions.
Variable numberOfLiteral : string -> JsNumber.

Inductive step : Widget -> Widget -> Prop :=
| step_panel w b :
    step w (openPanel b w)
| step_input w s :
    step w (setInputValue s w)
| step_send w message :
    step w (setActiveAssistantMessageId None
              (setIsStreaming true (appendNew user message text w)))
| step_chunk w t buf d value :
    step w (fst (handled (onChunk (processLine numberOfLiteral)
                            {| buffer := buf; decoder := d; handled := (w, t) |}
                            value)))
| step_done w t buf d :
    step w (streamFinally
              (flushQueuedProposal
                 (fst (onDone (processLine numberOfLiteral)
                         {| buffer := buf; decoder := d; handled := (w, t) |}))))
| step_catch w t e :
    step w (streamFinally (fst (streamCatch e (w, t))))
| step_decision w act :
    step w (fst (handleReservationDecision act w))
| step_settled w act outcome :
    step w (handleReservationDecision_settled act outcome w).

Inductive reachable : Widget -> Prop :=
| reachable_initial session : reachable (initialWidget session)
| reachable_step w w' : reachable w -> step w w' -> reachable w'.
End Transitions.

(** ** Inputs of the examples *)

Definition demoChunk1 : string :=
  quoted "{'type':'token','content':'您'}" ++ NL ++ quoted "{'type':'token'".

Definition demoChunk2 : string :=
  quoted "':'message','content':'收到'}" ++ NL ++ quoted "{'type':'done'}" ++ NL.

Definition demoLine1 : string := quoted "{'type':'token','content':'您'}".
Definition demoLine2 : string := quoted "{'type':'token'':'message','content':'收到'}".
Definition demoLine3 : string := quoted "{'type':'done'}".

Definition demoProposal : ReservationProposal :=
  {| resource_id := "device-001";
     start_time := "2025-09-25T02:00:00+00:00";
     end_time := None;
     reservation_id := None;
     note := None |}.

Definition heldProposal : ReservationProposal :=
  {| resource_id := "device-001";
     start_time := "2025-09-25T02:00:00+00:00";
     end_time := None;
     reservation_id := Some "r-1";
     note := None |}.

Definition availabilityLine : string :=
  quoted "{'type':'tool','tool_name':'check_device_availability','output':{'available':true,'proposal':{'resource_id':'device-001','start_time':'2025-09-25T02:00:00+00:00'}}}".

Definition heldLine : string :=
  quoted "{'type':'tool','tool_name':'check_device_availability','output':{'available':true,'proposal':{'resource_id':'device-001','start_time':'2025-09-25T02:00:00+00:00','reservation_id':'r-1'}}}".

(** A stream cut inside the three bytes of 您, with the end of one line,
    a whole line and the beginning of the next in one chunk, and without a
    line feed at its end. *)
Definition raggedChunks : list string :=
  [quoted "{'type':'token','content':'" ++ bytes [230; 130];
   bytes [168] ++ quoted "'}" ++ NL ++ availabilityLine ++ NL ++ quoted "{'type':'do";
   quoted "ne'}"].

(** The widget after a first turn whose stream carries [line] and [done]. *)
Definition afterTurn (line : string) : Widget :=
  processUserMessage literalNumber "帮我预约明天早上8点的设备"
    (StreamResponse 200 (Some ([line ++ NL ++ demoLine3 ++ NL], None)))
    (openPanel true (initialWidget "session")).

Definition secondOffer : JSVal :=
  Some (JObj [("available", JBool true);
              ("resource_id", JStr "device-002");
              ("start_time", JStr "2025-09-26T02:00:00+00:00")]).

Definition firstOffer : JSVal :=
  Some (JObj [("available", JBool true);
              ("proposal", JObj [("resource_id", JStr "device-001");
                                 ("start_time", JStr "2025-09-25T02:00:00+00:00")])]).

Definition secondProposal : ReservationProposal :=
  {| resource_id := "device-002";
     start_time := "2025-09-26T02:00:00+00:00";
     end_time := None;
     reservation_id := None;
     note := None |}.

Definition failedUpdate : JSVal :=
  Some (JObj [("success", JBool false); ("reason", JStr "slot taken")]).

(** ** The endpoints ([config/api.ts], the variant that reads the
    environment) *)

(** [s.endsWith(c)] for a one-character [c]. *)
Fixpoint endsWithChar (c : ascii) (s : string) : bool :=
  match s with
  | EmptyString => false
  | String x EmptyString => Ascii.eqb x c
  | String _ rest => endsWithChar c rest
  end.

(** [s.slice(0, -1)] *)
Fixpoint sliceOffLast (s : string) : string :=
  match s with
  | EmptyString => EmptyString
  | String _ EmptyString => EmptyString
  | String x rest => String x (sliceOffLast rest)
  end.

(** [import.meta.env.VITE_API_BASE_URL ?? ''] *)
Definition rawBaseUrl (env : option string) : string :=
  match env with
  | Some v => v
  | None => ""
  end.

Definition normalizedBaseUrl (env : option string) : string :=
  if endsWithChar "/" (rawBaseUrl env)
  then sliceOffLast (rawBaseUrl env)
  else rawBaseUrl env.

Definition API_BASE_URL (env : option string) : string := normalizedBaseUrl env.

Record Endpoints := {
  chatStream : string;
  reservationDecision : string
}.

Definition API_ENDPOINTS (env : option string) : Endpoints :=
  {| chatStream := API_BASE_URL env ++ "/api/agent/chat/stream";
     reservationDecision := API_BASE_URL env ++ "/api/agent/reservations/decision" |}.

(** ** What the panel shows (lines 545-554) *)

(** The [disabled] attribute of the send button. *)
Definition sendDisabled (w : Widget) : bool :=
  isStreaming w || negb (nonEmpty (trim (inputValue w))).

(** ** More vocabulary *)

(** What never changes in a turn of the timeline. *)
Definition skeleton (m : ChatMessage) : MessageId * MessageRole * MessageType :=
  (id m, role m, type m).

(** The timeline of [w'] continues the one of [w]: the turns of [w] are
    still there, in their places, each with its identifier, role and type. *)
Definition continues (w w' : Widget) : Prop :=
  exists more, map skeleton (messages w') = (map skeleton (messages w) ++ more)%list.

(** The identifiers of the timeline are pairwise distinct, and older than
    the next one drawn. *)
Definition distinctIds (w : Widget) : Prop :=
  NoDup (map id (messages w)) /\ freshIds w.

(** [typeof payloadJson?.assistant_message === 'string'
     ? payloadJson.assistant_message : ''] *)
Definition assistantMessageOf (payloadJson : JValue) : string :=
  match optProp (Some payloadJson) "assistant_message" with
  | Some (JStr s) => s
  | _ => ""
  end.

(** The line is JSON. *)
Definition parses (numberOfLiteral : string -> JsNumber) (line : string) : bool :=
  match JSON_parse numberOfLiteral line with
  | Some _ => true
  | None => false
  end.

(** The lines the loop hands to its handler, out of the lines of the
    decoded text. *)
Definition handedOver (lines : list string) : list string :=
  filter nonEmpty (map trim lines).

(** The widget when the reading of the body has come to an end or to an
    error, after the chunks given. *)
Definition afterChunks (numberOfLiteral : string -> JsNumber)
    (chunks : list string) (w : Widget) : Widget :=
  fst (handled
         (readChunks (processLine numberOfLiteral) chunks
            (newReader (setActiveAssistantMessageId None (setIsStreaming true w),
                        newTurn)))).

(** A running call of [streamAssistantResponse] has kept the turns [old]
    that were there when it started, when identifiers were drawn up to
    [n0]: they head the timeline, and the assistant turn of the call, if it
    is open, was drawn later. *)
Definition keeps (old : list ChatMessage) (n0 : nat) (st : Widget * Turn) : Prop :=
  (exists more, messages (fst st) = (old ++ more)%list)
  /\ n0 <= nextUuid (fst st)
  /\ (forall i, assistantMessageId (snd st) = Some i -> exists k, i = uuid k /\ n0 <= k).

(** Events handled in order, as [processLine] handles the records of a
    stream. *)
Definition events (evs : list StreamEvent) (st : Widget * Turn) : Widget * Turn :=
  fold_left (fun st ev => dispatch ev st) evs st.

(** The events that end with [flushQueuedProposal]. *)
Definition promotes (ev : StreamEvent) : bool :=
  match ev with
  | StreamMessageEvent _ | StreamDoneEvent => true
  | StreamTokenEvent _ | ToolEventPayload _ _ => false
  end.

(** The state of a call of [streamAssistantResponse] after the lines
    given. *)
Definition afterLines (numberOfLiteral : string -> JsNumber)
    (lines : list string) (st : Widget * Turn) : Widget * Turn :=
  fold_left (fun st line => processLine numberOfLiteral line st) lines st.

(** The assistant turn of a stream, as [ensureAssistantMessage] appends it. *)
Definition turnOf (i : MessageId) (c : string) : ChatMessage :=
  {| id := i; role := assistant; content := c; type := text |}.

(** What holds of a running call of [streamAssistantResponse]: as long as
    it has opened no turn its accumulator is empty; once it has, that turn
    stands in the timeline, alone under its identifier, and reads what the
    accumulator holds. *)
Definition shows (st : Widget * Turn) : Prop :=
  freshIds (fst st)
  /\ match assistantMessageId (snd st) with
     | None => assembledContent (snd st) = ""
     | Some i =>
         exists before after,
           messages (fst st)
           = (before ++ turnOf i (assembledContent (snd st)) :: after)%list
           /\ forall m, In m (before ++ after)%list -> id m <> i
     end.

Definition unavailableLine : string :=
  quoted "{'type':'tool','tool_name':'check_device_availability','output':{'available':false}}".


(** * Properties *)

Unset Implicit Arguments.

(** ** What the timeline primitives leave alone *)

Arguments appendMessage : simpl never.
Arguments appendNew : simpl never.

Ltac by_cases_on_append :=
  intros; unfold appendNew, randomUUID, appendMessage;
  repeat match goal with
         | |- context [match ?r with user => _ | assistant => _ | system => _ end] =>
             destruct r
         | |- context [if negb (isOpen ?w) then _ else _] => destruct (isOpen w)
         end; reflexivity.

Lemma appendMessage_messages m w :
  messages (appendMessage m w) = (messages w ++ [m])%list.
Proof. by_cases_on_append. Qed.

Lemma appendMessage_pending m w :
  pendingProposal (appendMessage m w) = pendingProposal w.
Proof. by_cases_on_append. Qed.

Lemma appendMessage_queued m w :
  queuedProposalRef (appendMessage m w) = queuedProposalRef w.
Proof. by_cases_on_append. Qed.

Lemma appendMessage_loading m w :
  decisionLoading (appendMessage m w) = decisionLoading w.
Proof. by_cases_on_append. Qed.

Lemma appendMessage_nextUuid m w :
  nextUuid (appendMessage m w) = nextUuid w.
Proof. by_cases_on_append. Qed.

Lemma appendNew_messages r c t w :
  messages (appendNew r c t w)
  = (messages w ++ [{| id := uuid (nextUuid w); role := r; content := c; type := t |}])%list.
Proof. by_cases_on_append. Qed.

Lemma appendNew_pending r c t w :
  pendingProposal (appendNew r c t w) = pendingProposal w.
Proof. by_cases_on_append. Qed.

Lemma appendNew_queued r c t w :
  queuedProposalRef (appendNew r c t w) = queuedProposalRef w.
Proof. by_cases_on_append. Qed.

Lemma appendNew_loading r c t w :
  decisionLoading (appendNew r c t w) = decisionLoading w.
Proof. by_cases_on_append. Qed.

Lemma appendNew_nextUuid r c t w :
  nextUuid (appendNew r c t w) = S (nextUuid w).
Proof. by_cases_on_append. Qed.

Create Rewrite HintDb widget.
#[local] Hint Rewrite
  appendMessage_messages appendMessage_pending appendMessage_queued
  appendMessage_loading appendMessage_nextUuid
  appendNew_messages appendNew_pending appendNew_queued appendNew_loading
  appendNew_nextUuid : widget.

Ltac widget := repeat (autorewrite with widget; cbn).

(** ** Tool events *)

Lemma eqb_check_update :
  ("check_device_availability" =? "update_reservation_status")%string = false.
Proof. reflexivity. Qed.

Lemma handleToolEvent_update output w :
  handleToolEvent "update_reservation_status" output w
  = Some (handleUpdateStatus output w).
Proof. reflexivity. Qed.

Lemma handleToolEvent_check output w :
  handleToolEvent "check_device_availability" output w = handleAvailability output w.
Proof.
  unfold handleToolEvent. cbn.
  destruct (handleAvailability output w); reflexivity.
Qed.

(** C2, amended to what the code does: a failed [update_reservation_status]
    clears the queued proposal, leaves the pending proposal as it was, and
    appends exactly one status turn that carries the reason, or the generic
    retry message when the output has no reason string. *)
Theorem update_failure_keeps_pending (output : JSVal) (w : Widget) :
  flagOf "success" (nullish output (JObj [])) = false ->
  exists w',
    handleToolEvent "update_reservation_status" output w = Some w'
    /\ queuedProposalRef w' = None
    /\ pendingProposal w' = pendingProposal w
    /\ messages w'
       = (messages w
          ++ [statusTurn w (orElse (reasonOf (nullish output (JObj []))) MSG_UPDATE_FAILED)])%list.
Proof.
  intros Hfail. eexists. split.
  - apply handleToolEvent_update.
  - unfold handleUpdateStatus. cbv zeta. rewrite Hfail.
    widget. repeat split.
Qed.

Lemma update_failure_keeps_pending_witness :
  exists w',
    handleToolEvent "update_reservation_status" failedUpdate (afterTurn availabilityLine)
    = Some w'
    /\ queuedProposalRef w' = None
    /\ pendingProposal w' = pendingProposal (afterTurn availabilityLine)
    /\ messages w'
       = (messages (afterTurn availabilityLine)
          ++ [statusTurn (afterTurn availabilityLine) "slot taken"])%list.
Proof.
  apply (update_failure_keeps_pending failedUpdate (afterTurn availabilityLine)).
  reflexivity.
Defined.

(** C2 as the specification words it does not hold: after a turn that left a
    proposal pending, a failed update does not clear it. *)
Lemma update_failure_pending_not_cleared :
  flagOf "success" (nullish failedUpdate (JObj [])) = false
  /\ option_map pendingProposal
       (handleToolEvent "update_reservation_status" failedUpdate
          (afterTurn availabilityLine))
     = Some (Some demoProposal).
Proof. split; vm_compute; reflexivity. Qed.

(** C10: a tool event whose name is neither [check_device_availability]
    nor [update_reservation_status] changes nothing, neither in the widget
    nor in the turn under way. *)
Theorem unknown_tool_ignored (name : string) (output : JSVal) (w : Widget) (t : Turn) :
  name <> "check_device_availability" ->
  name <> "update_reservation_status" ->
  handleToolEvent name output w = Some w
  /\ dispatch (ToolEventPayload name output) (w, t) = (w, t).
Proof.
  intros Hcheck Hupdate.
  assert (H : handleToolEvent name output w = Some w).
  { unfold handleToolEvent.
    apply String.eqb_neq in Hcheck, Hupdate.
    rewrite Hcheck, Hupdate. reflexivity. }
  split; [exact H |].
  cbn. rewrite H. reflexivity.
Qed.

Lemma unknown_tool_ignored_witness :
  handleToolEvent "get_weather" failedUpdate (afterTurn availabilityLine)
  = Some (afterTurn availabilityLine)
  /\ dispatch (ToolEventPayload "get_weather" failedUpdate)
       (afterTurn availabilityLine, newTurn)
     = (afterTurn availabilityLine, newTurn).
Proof.
  apply (unknown_tool_ignored "get_weather" failedUpdate (afterTurn availabilityLine) newTurn);
    discriminate.
Defined.

(** ** Decisions *)

(** C7: cancelling a pending proposal that has no [reservation_id] sends
    no request, clears the queued and the pending proposal, and appends one
    status turn. *)
Theorem cancel_without_reservation (w : Widget) (p : ReservationProposal) :
  pendingProposal w = Some p ->
  present (reservation_id p) = false ->
  let (w', request) := handleReservationDecision cancel w in
  request = None
  /\ pendingProposal w' = None
  /\ queuedProposalRef w' = None
  /\ decisionLoading w' = decisionLoading w
  /\ messages w' = (messages w ++ [statusTurn w MSG_DISCARDED])%list.
Proof.
  intros Hpending Hid.
  unfold handleReservationDecision. rewrite Hpending, Hid. cbn.
  widget. repeat split.
Qed.

Lemma cancel_without_reservation_witness :
  let (w', request) := handleReservationDecision cancel (afterTurn availabilityLine) in
  request = None
  /\ pendingProposal w' = None
  /\ queuedProposalRef w' = None
  /\ decisionLoading w' = decisionLoading (afterTurn availabilityLine)
  /\ messages w'
     = (messages (afterTurn availabilityLine)
        ++ [statusTurn (afterTurn availabilityLine) MSG_DISCARDED])%list.
Proof.
  apply (cancel_without_reservation (afterTurn availabilityLine) demoProposal);
    reflexivity.
Defined.

Lemma decisionCatch_pending e w :
  pendingProposal (decisionCatch e w) = pendingProposal w.
Proof. unfold decisionCatch. now widget. Qed.

Lemma decisionTry_failure_pending v w :
  schedulerSuccessOf v = false ->
  pendingProposal (decisionTry v w) = pendingProposal w.
Proof.
  intros Hfail. unfold decisionTry. cbv zeta. rewrite Hfail.
  repeat match goal with
         | |- context [match ?x with _ => _ end] => destruct x
         end; now widget.
Qed.

(** C1, amended to what the code does: when a decision request fails, the
    [finally] clause clears the pending proposal for [cancel] only; after a
    failed [confirm] the pending proposal is the one that was there, and no
    decision is loading any more. *)
Theorem failed_confirm_keeps_pending (outcome : DecisionOutcome) (w : Widget) :
  decisionFailed outcome = true ->
  pendingProposal (handleReservationDecision_settled confirm outcome w)
  = pendingProposal w
  /\ decisionLoading (handleReservationDecision_settled confirm outcome w) = None
  /\ pendingProposal (handleReservationDecision_settled cancel outcome w) = None.
Proof.
  intros Hfailed. unfold handleReservationDecision_settled, decisionFinally.
  split; [| split; reflexivity].
  change (pendingProposal (setDecisionLoading None ?x)) with (pendingProposal x).
  destruct outcome as [e | st body]; unfold decisionFailed in Hfailed.
  - apply decisionCatch_pending.
  - destruct (ok st); cbn [negb orb] in *.
    + destruct body as [v | e].
      * apply decisionTry_failure_pending.
        now apply negb_true_iff.
      * apply decisionCatch_pending.
    + apply decisionCatch_pending.
Qed.

Lemma failed_confirm_keeps_pending_witness :
  let w := fst (handleReservationDecision confirm (afterTurn availabilityLine)) in
  let outcome := DecisionResponse 500 (JsonRejected (ErrorObject "Unexpected token")) in
  pendingProposal (handleReservationDecision_settled confirm outcome w)
  = pendingProposal w
  /\ decisionLoading (handleReservationDecision_settled confirm outcome w) = None
  /\ pendingProposal (handleReservationDecision_settled cancel outcome w) = None.
Proof.
  apply (failed_confirm_keeps_pending
           (DecisionResponse 500 (JsonRejected (ErrorObject "Unexpected token")))).
  reflexivity.
Defined.

(** C1 as the specification words it does not hold: a confirm answered with
    status 500, and a confirm answered with a body whose scheduler outcome
    is no success, both leave the proposal pending. *)
Lemma failed_confirm_not_cleared :
  let w := fst (handleReservationDecision confirm (afterTurn availabilityLine)) in
  let refused :=
    JsonValue (JObj [("scheduler",
                      JObj [("success", JBool false); ("reason", JStr "slot taken")])]) in
  pendingProposal w = Some demoProposal
  /\ pendingProposal
       (handleReservationDecision_settled confirm
          (DecisionResponse 500 (JsonRejected (ErrorObject "Unexpected token"))) w)
     = Some demoProposal
  /\ pendingProposal
       (handleReservationDecision_settled confirm (DecisionResponse 200 refused) w)
     = Some demoProposal.
Proof. repeat split; vm_compute; reflexivity. Qed.

(** C5, amended to what the code does: while a decision is loading, a click
    on the button of that same action reaches no handler, so it changes
    nothing and sends nothing; a click on the button of the other action
    runs [handleReservationDecision], which does not look at
    [decisionLoading]. *)
Theorem same_action_click_ignored (w : Widget) (act other : ReservationDecisionAction) :
  decisionLoading w = Some act ->
  isOpen w = true ->
  other <> act ->
  clickDecision act w = (w, None)
  /\ clickDecision other w = handleReservationDecision other w.
Proof.
  intros Hloading Hopen Hother. unfold clickDecision, buttonEnabled.
  rewrite Hloading, Hopen. cbn [andb].
  destruct (pendingProposal w) as [p |] eqn:Hpending.
  - split.
    + destruct act; reflexivity.
    + destruct act, other; try reflexivity; contradiction.
  - split; [reflexivity |].
    unfold handleReservationDecision. rewrite Hpending. reflexivity.
Qed.

Lemma same_action_click_ignored_witness :
  let w := fst (handleReservationDecision confirm (afterTurn heldLine)) in
  clickDecision confirm w = (w, None)
  /\ clickDecision cancel w = handleReservationDecision cancel w.
Proof.
  apply (same_action_click_ignored
           (fst (handleReservationDecision confirm (afterTurn heldLine)))
           confirm cancel).
  - reflexivity.
  - reflexivity.
  - discriminate.
Defined.

(** C5 as the specification words it does not hold: with a confirm request
    in flight, a click on the cancel button of a held proposal sends a
    second request. *)
Lemma second_request_while_loading :
  let (w1, first) := clickDecision confirm (afterTurn heldLine) in
  let (w2, second) := clickDecision cancel w1 in
  first = Some {| session_id := "session"; action := confirm;
                  payload_start_time := Some "2025-09-25T02:00:00+00:00";
                  payload_reservation_id := None |}
  /\ decisionLoading w1 = Some confirm
  /\ second = Some {| session_id := "session"; action := cancel;
                      payload_start_time := None;
                      payload_reservation_id := Some "r-1" |}
  /\ w2 <> w1.
Proof.
  vm_compute. repeat split. discriminate.
Qed.

(** ** Lines of a text *)

Lemma append_assoc (a b c : string) : (a ++ b) ++ c = a ++ (b ++ c).
Proof. induction a as [| x a IH]; cbn; [reflexivity | now rewrite IH]. Qed.

Lemma append_empty_r (a : string) : a ++ "" = a.
Proof. induction a as [| x a IH]; cbn; [reflexivity | now rewrite IH]. Qed.

Lemma split_not_nil (s : string) : split s <> [].
Proof.
  destruct s as [| c s]; cbn; [discriminate |].
  destruct (Ascii.eqb c LF); [discriminate |].
  destruct (split s); discriminate.
Qed.

Lemma split_head_tail (s : string) : split s = hd "" (split s) :: tl (split s).
Proof. pose proof (split_not_nil s). destruct (split s); [contradiction | reflexivity]. Qed.

Lemma noLF_append (a b : string) : noLF (a ++ b) = noLF a && noLF b.
Proof.
  induction a as [| c a IH]; cbn; [reflexivity |].
  rewrite IH. now rewrite andb_assoc.
Qed.

Lemma split_noLF (s : string) : noLF s = true -> split s = [s].
Proof.
  induction s as [| c s IH]; cbn; [reflexivity |].
  intros H. apply andb_true_iff in H as [Hc Hs].
  apply negb_true_iff in Hc. rewrite Hc, (IH Hs). reflexivity.
Qed.

Lemma split_lines_noLF (s : string) : Forall (fun l => noLF l = true) (split s).
Proof.
  induction s as [| c s IH]; cbn.
  - repeat constructor.
  - destruct (Ascii.eqb c LF) eqn:Hc.
    + constructor; [reflexivity | exact IH].
    + destruct (split s) as [| l ls].
      * repeat constructor. cbn. now rewrite Hc.
      * inversion IH; subst. constructor; [| assumption].
        cbn. rewrite Hc. assumption.
Qed.

Lemma last_split_noLF (s : string) : noLF (last (split s) "") = true.
Proof.
  pose proof (split_lines_noLF s) as H.
  induction H as [| l ls Hl _ IH]; [reflexivity |].
  destruct ls; [exact Hl | exact IH].
Qed.

(** The lines of [a ++ b]: the complete lines of [a], then the last,
    unfinished line of [a] continued by the first line of [b], then the
    other lines of [b]. *)
Lemma split_append (a b : string) :
  split (a ++ b)
  = (removelast (split a)
     ++ (last (split a) "" ++ hd "" (split b))%string :: tl (split b))%list.
Proof.
  induction a as [| c a IH].
  - cbn. apply split_head_tail.
  - cbn [append split]. destruct (Ascii.eqb c LF).
    + rewrite IH. pose proof (split_not_nil a).
      destruct (split a) as [| l ls]; [contradiction | reflexivity].
    + rewrite IH. pose proof (split_not_nil a).
      destruct (split a) as [| l [| l2 ls]]; [contradiction | reflexivity | reflexivity].
Qed.

(** Splitting may resume from the unfinished line. *)
Lemma split_resume (a b : string) :
  split (a ++ b) = (removelast (split a) ++ split (last (split a) "" ++ b)%string)%list.
Proof.
  rewrite (split_append a b), (split_append (last (split a) "") b).
  rewrite (split_noLF _ (last_split_noLF a)). reflexivity.
Qed.

Lemma removelast_resume (a b : string) :
  removelast (split (a ++ b))
  = (removelast (split a) ++ removelast (split (last (split a) "" ++ b)%string))%list.
Proof.
  rewrite split_resume. apply removelast_app, split_not_nil.
Qed.

Lemma last_app_not_nil (A : Type) (l l' : list A) (d : A) :
  l' <> [] -> last (l ++ l') d = last l' d.
Proof.
  intros H. induction l as [| x l IH]; [reflexivity |].
  cbn [app last]. destruct (l ++ l')%list eqn:E; [| exact IH].
  apply app_eq_nil in E as [_ E]. contradiction.
Qed.

Lemma last_resume (a b : string) :
  last (split (a ++ b)) "" = last (split (last (split a) "" ++ b)) "".
Proof.
  rewrite split_resume. apply last_app_not_nil, split_not_nil.
Qed.

Lemma split_unlines (records : list string) (rest : string) :
  Forall (fun r => noLF r = true) records -> noLF rest = true ->
  split (unlines records ++ rest) = (records ++ [rest])%list.
Proof.
  intros Hrecords Hrest. induction Hrecords as [| r rs Hr _ IH].
  - cbn. now apply split_noLF.
  - unfold unlines in *. cbn [map joinText].
    rewrite !append_assoc. rewrite split_append.
    rewrite (split_noLF _ Hr). cbn [removelast last app].
    change (NL ++ ?x) with (String LF x). cbn [split].
    rewrite Ascii.eqb_refl. cbn [hd tl]. rewrite append_empty_r, IH. reflexivity.
Qed.

(** ** Text without surrounding white space *)

Lemma dropAll_none (fuel : nat) (ps : list string) (s : string) :
  dropAny ps s = None -> dropAll fuel ps s = s.
Proof. intros H. destruct fuel; cbn; [reflexivity | now rewrite H]. Qed.

Lemma list_ascii_of_append (a b : string) :
  list_ascii_of_string (a ++ b)
  = (list_ascii_of_string a ++ list_ascii_of_string b)%list.
Proof. induction a as [| c a IH]; cbn; [reflexivity | now rewrite IH]. Qed.

Lemma string_of_list_app (l1 l2 : list ascii) :
  string_of_list_ascii (l1 ++ l2) = string_of_list_ascii l1 ++ string_of_list_ascii l2.
Proof. induction l1 as [| c l1 IH]; cbn; [reflexivity | now rewrite IH]. Qed.

Lemma reverse_append (a b : string) : reverse (a ++ b) = reverse b ++ reverse a.
Proof.
  unfold reverse. now rewrite list_ascii_of_append, rev_app_distr, string_of_list_app.
Qed.

Lemma reverse_involutive (s : string) : reverse (reverse s) = s.
Proof.
  unfold reverse.
  now rewrite list_ascii_of_string_of_list_ascii, rev_involutive,
    string_of_list_ascii_of_string.
Qed.

(** A text that neither begins nor ends with white space is its own trim. *)
Lemma trim_unpadded (s : string) :
  dropAny WHITESPACE s = None ->
  dropAny (map reverse WHITESPACE) (reverse s) = None ->
  trim s = s.
Proof.
  intros Hstart Hend. unfold trim, trimStart, trimEnd.
  rewrite (dropAll_none _ _ _ Hstart), (dropAll_none _ _ _ Hend).
  apply reverse_involutive.
Qed.

(** A line of text written between braces, as a JSON object is, is a
    record. *)
Lemma braced_record (inner : string) :
  isText ("{" ++ inner ++ "}") = true ->
  noLF inner = true ->
  isRecord ("{" ++ inner ++ "}") = true.
Proof.
  intros Htext Hlf. unfold isRecord. rewrite Htext.
  assert (Hline : noLF ("{" ++ inner ++ "}") = true).
  { cbn [append noLF]. rewrite noLF_append, Hlf. reflexivity. }
  rewrite Hline. cbn [andb append nonEmpty].
  apply String.eqb_eq. apply trim_unpadded; [reflexivity |].
  change (String "{" (inner ++ "}")) with ("{" ++ (inner ++ "}")).
  rewrite !reverse_append. reflexivity.
Qed.

(** ** The decoder over a chunked stream *)

Lemma decode_append (d : Utf8Decoder) (a b : string) :
  decode d (a ++ b)
  = let (d1, out1) := decode d a in
    let (d2, out2) := decode d1 b in
    (d2, out1 ++ out2).
Proof.
  revert d. induction a as [| c a IH]; intros d.
  - cbn. destruct (decode d b). reflexivity.
  - cbn [append decode]. destruct (decodeByte d c) as [d1 o1].
    rewrite IH. destruct (decode d1 a) as [d2 o2].
    destruct (decode d2 b) as [d3 o3]. now rewrite append_assoc.
Qed.

Lemma decodeEnd_noLF (d : Utf8Decoder) : noLF (decodeEnd d) = true.
Proof.
  unfold decodeEnd. destruct (bytesNeeded d); [reflexivity |].
  destruct (bomSeen d); reflexivity.
Qed.

Lemma atRest_idle (d : Utf8Decoder) : atRest d = true -> d = idle (bomSeen d).
Proof.
  unfold atRest. intros H.
  repeat (apply andb_true_iff in H as [H ?]).
  destruct d as [p n lo up b]; cbn in *.
  apply String.eqb_eq in H. repeat match goal with
  | E : (_ =? _)%nat = true |- _ => apply Nat.eqb_eq in E
  end. subst. reflexivity.
Qed.

(** Text goes through the decoder unchanged wherever it stands. *)
Lemma decode_text (bom : bool) (s : string) :
  isText s = true -> exists bom', decode (idle bom) s = (idle bom', s).
Proof.
  unfold isText, decodesToItself. intros H.
  apply andb_true_iff in H as [Hfalse Htrue].
  assert (Hbom : (let (d, out) := decode (idle bom) s in atRest d && (out =? s)%string) = true)
    by (destruct bom; assumption).
  destruct (decode (idle bom) s) as [d out].
  apply andb_true_iff in Hbom as [Hrest Hout].
  apply String.eqb_eq in Hout. subst out.
  exists (bomSeen d). now rewrite <- (atRest_idle _ Hrest).
Qed.

Lemma decode_record_line (bom : bool) (r : string) :
  isText r = true -> exists bom', decode (idle bom) (r ++ NL) = (idle bom', r ++ NL).
Proof.
  intros Hr. destruct (decode_text bom _ Hr) as [b1 H1].
  rewrite decode_append, H1. exists true.
  destruct b1; reflexivity.
Qed.

Lemma decode_records (records : list string) (rest : string) (bom : bool) :
  Forall (fun r => isText r = true) records -> isText rest = true ->
  exists bom',
    decode (idle bom) (unlines records ++ rest) = (idle bom', unlines records ++ rest).
Proof.
  intros Hrecords Hrest. revert bom.
  induction Hrecords as [| r rs Hr _ IH]; intros bom.
  - cbn. now apply decode_text.
  - unfold unlines in *. cbn [map joinText]. rewrite append_assoc.
    destruct (decode_record_line bom _ Hr) as [b1 H1].
    destruct (IH b1) as [b2 H2].
    rewrite decode_append, H1, H2. now exists b2.
Qed.

(** ** The read loop *)

Section ReadLoopProperties.
Variable S : Type.
Variable handler : string -> S -> S.

Lemma forLines_app (l1 l2 : list string) (s : S) :
  forLines handler (l1 ++ l2) s = forLines handler l2 (forLines handler l1 s).
Proof. apply fold_left_app. Qed.

(** Reading chunk after chunk comes to decoding their concatenation and
    splitting the decoded text once. *)
Lemma readChunks_decode (chunks : list string) (r : Reader S) :
  noLF (buffer r) = true ->
  readChunks handler chunks r
  = let (d, out) := decode (decoder r) (joinText chunks) in
    {| buffer := last (split (buffer r ++ out)) "";
       decoder := d;
       handled := forLines handler (removelast (split (buffer r ++ out))) (handled r) |}.
Proof.
  revert r. induction chunks as [| c cs IH]; intros r Hbuffer.
  - cbn. rewrite append_empty_r, (split_noLF _ Hbuffer). now destruct r.
  - cbn [readChunks fold_left joinText].
    change (fold_left (onChunk handler) cs ?x) with (readChunks handler cs x).
    rewrite decode_append.
    unfold onChunk at 1. destruct (decode (decoder r) c) as [d1 out1].
    rewrite IH by (cbn; apply last_split_noLF). cbn [buffer decoder handled].
    destruct (decode d1 (joinText cs)) as [d2 out2].
    rewrite <- append_assoc, <- last_resume, <- forLines_app, <- removelast_resume.
    reflexivity.
Qed.

Lemma isRecord_inv (r : string) :
  isRecord r = true ->
  isText r = true /\ noLF r = true /\ nonEmpty r = true /\ trim r = r.
Proof.
  unfold isRecord. intros H.
  apply andb_true_iff in H as [H Htrim].
  apply andb_true_iff in H as [H Hnonempty].
  apply andb_true_iff in H as [Htext Hlf].
  apply String.eqb_eq in Htrim. auto.
Qed.

Lemma forLines_records (records : list string) (s : S) :
  Forall (fun r => isRecord r = true) records ->
  forLines handler records s = fold_left (fun s line => handler line s) records s.
Proof.
  intros H. revert s. induction H as [| r rs Hr _ IH]; intros s; [reflexivity |].
  unfold forLines in *. cbn [fold_left].
  destruct (isRecord_inv _ Hr) as (_ & _ & Hnonempty & Htrim).
  rewrite Htrim, Hnonempty. apply IH.
Qed.

Lemma isRecord_parts (records : list string) :
  Forall (fun r => isRecord r = true) records ->
  Forall (fun r => isText r = true) records /\ Forall (fun r => noLF r = true) records.
Proof.
  intros H. split; (eapply Forall_impl; [| exact H]); cbv beta; intros r Hr;
    destruct (isRecord_inv _ Hr) as (? & ? & _); assumption.
Qed.

(** C3: when the chunks, put end to end, are records that each end with a
    line feed, followed by a rest without line feed, the loop hands
    exactly the records to its handler, in order and whatever the chunk
    boundaries, and then the rest, trimmed, as one last line if it is not
    blank. *)
Theorem records_in_order
    (chunks records : list string) (rest : string) (s : S) :
  Forall (fun r => isRecord r = true) records ->
  isText rest = true ->
  noLF rest = true ->
  joinText chunks = unlines records ++ rest ->
  readBody handler chunks s
  = fold_left (fun s line => handler line s) (records ++ residual rest) s.
Proof.
  intros Hrecords Htext Hrest Hjoin.
  destruct (isRecord_parts _ Hrecords) as [Htexts Hlines].
  unfold readBody. rewrite readChunks_decode by reflexivity.
  cbn [buffer decoder handled newReader]. rewrite Hjoin.
  destruct (@decode_records records rest false Htexts Htext) as [bom Hdecode].
  unfold newDecoder. rewrite Hdecode.
  change ("" ++ ?x) with x.
  rewrite (@split_unlines records rest Hlines Hrest), removelast_last, last_last.
  unfold onDone. cbn [buffer decoder handled decodeEnd idle bytesNeeded].
  rewrite append_empty_r, fold_left_app, forLines_records by assumption.
  unfold residual. destruct (nonEmpty (trim rest)); reflexivity.
Qed.
End ReadLoopProperties.

Lemma records_in_order_witness :
  readBody (fun line seen => seen ++ [line])%list raggedChunks []
  = fold_left (fun seen line => seen ++ [line])%list
      ([demoLine1; availabilityLine] ++ residual demoLine3) [].
Proof.
  apply (records_in_order (list string) (fun line seen => seen ++ [line])%list
           raggedChunks [demoLine1; availabilityLine] demoLine3 []).
  - repeat constructor.
  - reflexivity.
  - reflexivity.
  - reflexivity.
Defined.

(** ** The two-chunk scenario *)

(** C6, amended to what the code does: the two chunks carry three lines; the
    middle one, put together across the chunk boundary, is not JSON and is
    skipped, so two lines decode to events (a token and the end of the
    turn); the assistant turn reads 您; with no proposal queued, the proposal
    state is as before. *)
Theorem scenario_two_chunks (numberOfLiteral : string -> JsNumber) (w : Widget) :
  queuedProposalRef w = None ->
  let w' := streamAssistantResponse numberOfLiteral
              (StreamResponse 200 (Some ([demoChunk1; demoChunk2], None))) w in
  readBody (fun line seen => seen ++ [line])%list [demoChunk1; demoChunk2] []
  = [demoLine1; demoLine2; demoLine3]
  /\ map (fun line => option_map eventOf (JSON_parse numberOfLiteral line))
       [demoLine1; demoLine2; demoLine3]
     = [Some (Some (StreamTokenEvent "您")); None; Some (Some StreamDoneEvent)]
  /\ messages w' = (messages w ++ [assistantTurn w "您"])%list
  /\ pendingProposal w' = pendingProposal w
  /\ queuedProposalRef w' = None.
Proof.
  intros Hqueued. destruct w as [open unread msgs input streaming active session
                                 pend loading queued next].
  cbn in Hqueued. subst queued.
  destruct open; vm_compute; repeat split.
Qed.

Lemma scenario_two_chunks_witness :
  let w' := streamAssistantResponse literalNumber
              (StreamResponse 200 (Some ([demoChunk1; demoChunk2], None)))
              (initialWidget "session") in
  readBody (fun line seen => seen ++ [line])%list [demoChunk1; demoChunk2] []
  = [demoLine1; demoLine2; demoLine3]
  /\ map (fun line => option_map eventOf (JSON_parse literalNumber line))
       [demoLine1; demoLine2; demoLine3]
     = [Some (Some (StreamTokenEvent "您")); None; Some (Some StreamDoneEvent)]
  /\ messages w' = (messages (initialWidget "session")
                    ++ [assistantTurn (initialWidget "session") "您"])%list
  /\ pendingProposal w' = pendingProposal (initialWidget "session")
  /\ queuedProposalRef w' = None.
Proof.
  apply (scenario_two_chunks literalNumber (initialWidget "session")).
  reflexivity.
Defined.

(** C6 as the specification words it does not hold: the assistant turn reads
    您, and no turn of the timeline reads 收到. *)
Lemma scenario_text_is_not_message :
  let w' := streamAssistantResponse literalNumber
              (StreamResponse 200 (Some ([demoChunk1; demoChunk2], None)))
              (initialWidget "session") in
  map content (messages w') = [content INITIAL_MESSAGE; "您"]
  /\ ~ In "收到" (map content (messages w')).
Proof.
  split; [vm_compute; reflexivity |].
  vm_compute. intros [H | [H | []]]; discriminate H.
Qed.

(** ** Tokens of one turn *)

Lemma fresh_map_id (w : Widget) (c : string) :
  freshIds w ->
  map (fun msg => if MessageId_eqb (id msg) (uuid (nextUuid w))
                  then withContent c msg else msg) (messages w)
  = messages w.
Proof.
  unfold freshIds. intros Hfresh.
  induction (messages w) as [| m ms IH]; [reflexivity |].
  cbn [map]. rewrite IH by (intros; eapply Hfresh; [right |]; eassumption).
  destruct (id m) as [| n] eqn:Hid; [reflexivity |].
  cbn. specialize (Hfresh m n (or_introl eq_refl) Hid).
  apply Nat.lt_neq in Hfresh. apply Nat.eqb_neq in Hfresh. now rewrite Hfresh.
Qed.

Lemma update_opened (w : Widget) (a b : string) :
  freshIds w ->
  updateMessageContent (uuid (nextUuid w)) b (opened w a) = opened w b.
Proof.
  intros Hfresh. pose proof (fresh_map_id w b Hfresh) as Hmap.
  destruct w as [open unread msgs input streaming active session
                 pend loading queued next].
  cbn in Hmap.
  unfold opened, ensureAssistantMessage, updateMessageContent, appendMessage.
  destruct open; cbn;
    unfold setMessages, setHasUnread, setActiveAssistantMessageId; cbn;
    rewrite map_app, Hmap; cbn; rewrite Nat.eqb_refl; reflexivity.
Qed.

Lemma nonEmpty_append (a c : string) : nonEmpty a = true -> nonEmpty (a ++ c) = true.
Proof. destruct a; [discriminate | reflexivity]. Qed.

Lemma token_step (w : Widget) (a c : string) :
  freshIds w ->
  dispatch (StreamTokenEvent c) (afterTokens w a) = afterTokens w (a ++ c).
Proof.
  intros Hfresh. unfold afterTokens.
  destruct (nonEmpty a) eqn:Ha.
  - rewrite (@nonEmpty_append a c Ha). cbn [dispatch assembledContent assistantMessageId].
    rewrite (@nonEmpty_append a c Ha).
    cbn [ensureAssistantMessage assistantMessageId].
    now rewrite update_opened.
  - destruct a; [| discriminate]. cbn [append dispatch newTurn assembledContent
                                       assistantMessageId].
    destruct c as [| x c]; reflexivity.
Qed.

Lemma tokens_from (w : Widget) (cs : list string) (a : string) :
  freshIds w ->
  tokens cs (afterTokens w a) = afterTokens w (a ++ joinText cs).
Proof.
  intros Hfresh. revert a. induction cs as [| c cs IH]; intros a.
  - cbn. now rewrite append_empty_r.
  - cbn [tokens fold_left joinText].
    change (fold_left ?f cs ?x) with (tokens cs x).
    rewrite token_step, IH, append_assoc by assumption. reflexivity.
Qed.

(** A stream that has carried nothing but tokens: as long as they amount
    to the empty text no turn is created; from the first token that makes
    the text non-empty on, the timeline is the one before followed by the
    one turn that reads the text. *)
Lemma tokens_one_turn (w : Widget) (cs : list string) :
  freshIds w ->
  let (w', t) := tokens cs (w, newTurn) in
  messages w'
  = (messages w
     ++ if nonEmpty (joinText cs) then [assistantTurn w (joinText cs)] else [])%list
  /\ assistantMessageId t
     = (if nonEmpty (joinText cs) then Some (uuid (nextUuid w)) else None)
  /\ assembledContent t = joinText cs.
Proof.
  intros Hfresh.
  pose proof (tokens_from w cs "" Hfresh) as H.
  change (afterTokens w "") with (w, newTurn) in H.
  change ("" ++ joinText cs) with (joinText cs) in H.
  rewrite H. unfold afterTokens.
  destruct (nonEmpty (joinText cs)) eqn:Htext.
  - unfold opened, ensureAssistantMessage. cbn [assistantMessageId newTurn randomUUID fst].
    rewrite appendMessage_messages. repeat split.
  - destruct (joinText cs); [| discriminate]. cbn. rewrite app_nil_r. repeat split.
Qed.

Lemma initial_fresh (session : string) : freshIds (initialWidget session).
Proof.
  intros m n [Hm | []] Hid. subst m. discriminate Hid.
Qed.

Lemma tokens_one_turn_witness :
  let (w', t) := tokens [""; "您"; ""; "好"] (initialWidget "session", newTurn) in
  messages w'
  = (messages (initialWidget "session")
     ++ if nonEmpty (joinText [""; "您"; ""; "好"])
        then [assistantTurn (initialWidget "session") (joinText [""; "您"; ""; "好"])]
        else [])%list
  /\ assistantMessageId t
     = (if nonEmpty (joinText [""; "您"; ""; "好"])
        then Some (uuid (nextUuid (initialWidget "session"))) else None)
  /\ assembledContent t = joinText [""; "您"; ""; "好"].
Proof.
  apply (tokens_one_turn (initialWidget "session") [""; "您"; ""; "好"]).
  apply initial_fresh.
Defined.

(** C8 as the specification words it does not hold: a first token event
    whose content is empty creates no turn. *)
Lemma empty_first_token_creates_nothing :
  let st := (initialWidget "session", newTurn) in
  let line := quoted "{'type':'token','content':''}" in
  option_map eventOf (JSON_parse literalNumber line) = Some (Some (StreamTokenEvent ""))
  /\ processLine literalNumber line st = st
  /\ messages (fst (processLine literalNumber line st)) = [INITIAL_MESSAGE].
Proof. repeat split; vm_compute; reflexivity. Qed.

(** ** The invariant of the proposal state *)

Lemma Inv_same (w w' : Widget) :
  queuedProposalRef w' = queuedProposalRef w ->
  pendingProposal w' = pendingProposal w ->
  Inv w -> Inv w'.
Proof. unfold Inv, liveProposals. intros -> ->. tauto. Qed.

Lemma Inv_cleared (w' : Widget) :
  queuedProposalRef w' = None -> pendingProposal w' = None -> Inv w'.
Proof. unfold Inv, liveProposals. intros -> ->. cbn. auto. Qed.

Lemma Inv_unqueued (w w' : Widget) :
  queuedProposalRef w' = None ->
  pendingProposal w' = pendingProposal w ->
  Inv w -> Inv w'.
Proof.
  unfold Inv, liveProposals. intros -> -> (_ & Hp & Hone).
  split; [exact I | split; [exact Hp |]]. destruct (pendingProposal w); cbn; lia.
Qed.

Lemma acceptable_complete (p : ReservationProposal) :
  acceptable (Some p) = true -> complete_proposal (Some p).
Proof.
  cbn. intros H. apply andb_true_iff in H as [Hr Hs].
  split; intros E; rewrite E in *; discriminate.
Qed.

Lemma Inv_queued (w' : Widget) (p : ReservationProposal) :
  queuedProposalRef w' = Some p ->
  pendingProposal w' = None ->
  acceptable (Some p) = true ->
  Inv w'.
Proof.
  unfold Inv, liveProposals. intros -> -> H.
  split; [exact (acceptable_complete _ H) | split; [exact I | cbn; lia]].
Qed.

Lemma Inv_flush (w : Widget) : Inv w -> Inv (flushQueuedProposal w).
Proof.
  unfold Inv, liveProposals, flushQueuedProposal. intros (Hq & Hp & Hone).
  destruct (queuedProposalRef w) as [q |] eqn:Hqueued.
  - cbn [queuedProposalRef pendingProposal setQueuedProposalRef setPendingProposal].
    split; [exact I | split; [exact Hq | cbn in *; lia]].
  - rewrite Hqueued. auto.
Qed.

Lemma ensure_queued c st :
  queuedProposalRef (fst (ensureAssistantMessage c st)) = queuedProposalRef (fst st).
Proof.
  destruct st as [w t]. unfold ensureAssistantMessage.
  destruct (assistantMessageId t); cbn; now widget.
Qed.

Lemma ensure_pending c st :
  pendingProposal (fst (ensureAssistantMessage c st)) = pendingProposal (fst st).
Proof.
  destruct st as [w t]. unfold ensureAssistantMessage.
  destruct (assistantMessageId t); cbn; now widget.
Qed.

Lemma handleAvailability_Inv output w w' :
  handleAvailability output w = Some w' -> Inv w'.
Proof.
  unfold handleAvailability. cbv zeta.
  destruct (flagOf "available" (nullish output (JObj []))).
  - destruct (proposalOf _) as [proposal |]; [| discriminate].
    destruct (acceptable proposal) eqn:Hacc; intros [= <-].
    + destruct proposal as [p |]; [| discriminate].
      apply (@Inv_queued _ p); [reflexivity | reflexivity | assumption].
    + apply Inv_cleared; now widget.
  - intros [= <-]. apply Inv_cleared; now widget.
Qed.

Lemma handleUpdateStatus_Inv output w : Inv w -> Inv (handleUpdateStatus output w).
Proof.
  intros HInv. unfold handleUpdateStatus. cbv zeta.
  destruct (flagOf "success" (nullish output (JObj []))).
  - apply Inv_cleared; now widget.
  - apply (@Inv_unqueued w); [now widget | now widget | assumption].
Qed.

Lemma handleToolEvent_Inv name output w w' :
  Inv w -> handleToolEvent name output w = Some w' -> Inv w'.
Proof.
  intros HInv. unfold handleToolEvent.
  destruct (name =? "check_device_availability")%string.
  - destruct (handleAvailability output w) as [w1 |] eqn:Hav; [| discriminate].
    apply handleAvailability_Inv in Hav.
    destruct (name =? "update_reservation_status")%string; intros [= <-];
      [now apply handleUpdateStatus_Inv | assumption].
  - destruct (name =? "update_reservation_status")%string; intros [= <-];
      [now apply handleUpdateStatus_Inv | assumption].
Qed.

Lemma dispatch_Inv event st : Inv (fst st) -> Inv (fst (dispatch event st)).
Proof.
  destruct st as [w t]. cbn [fst]. intros HInv.
  destruct event as [c | c | name output |]; cbn [dispatch].
  - destruct (nonEmpty _); [| exact HInv].
    eapply Inv_same; [apply ensure_queued | apply ensure_pending | exact HInv].
  - destruct (ensureAssistantMessage c _) as [w1 t1] eqn:E.
    cbn [fst]. apply Inv_flush.
    replace w1 with (fst (ensureAssistantMessage c
                            (w, {| assistantMessageId := assistantMessageId t;
                                   assembledContent := c |}))) by now rewrite E.
    eapply Inv_same; [apply ensure_queued | apply ensure_pending | exact HInv].
  - destruct (handleToolEvent name output w) as [w' |] eqn:E; [| exact HInv].
    exact (handleToolEvent_Inv _ _ _ _ HInv E).
  - now apply Inv_flush.
Qed.

Section InvariantOfTheStream.
Variable numberOfLiteral : string -> JsNumber.

Lemma processLine_Inv line st :
  Inv (fst st) -> Inv (fst (processLine numberOfLiteral line st)).
Proof.
  intros HInv. unfold processLine.
  destruct (negb (nonEmpty line)); [exact HInv |].
  destruct (JSON_parse numberOfLiteral line) as [v |]; [| exact HInv].
  destruct (eventOf v) as [event |]; [| exact HInv].
  now apply dispatch_Inv.
Qed.

Lemma forLines_Inv lines st :
  Inv (fst st) -> Inv (fst (forLines (processLine numberOfLiteral) lines st)).
Proof.
  revert st. induction lines as [| l ls IH]; intros st HInv; [exact HInv |].
  unfold forLines in *. cbn [fold_left]. apply IH.
  destruct (nonEmpty (trim l)); [now apply processLine_Inv | exact HInv].
Qed.

Lemma onChunk_Inv r value :
  Inv (fst (handled r)) ->
  Inv (fst (handled (onChunk (processLine numberOfLiteral) r value))).
Proof.
  intros HInv. unfold onChunk. destruct (decode (decoder r) value) as [d out].
  cbn [handled]. now apply forLines_Inv.
Qed.

Lemma onDone_Inv r :
  Inv (fst (handled r)) -> Inv (fst (onDone (processLine numberOfLiteral) r)).
Proof.
  intros HInv. unfold onDone. cbv zeta.
  destruct (nonEmpty _); [now apply processLine_Inv | exact HInv].
Qed.

Lemma streamCatch_Inv e st : Inv (fst st) -> Inv (fst (streamCatch e st)).
Proof.
  destruct st as [w t]. cbn [fst]. intros HInv. unfold streamCatch.
  destruct e as [m | m |]; [exact HInv | |]; cbn [fst snd];
    (destruct (assistantMessageId t) as [i |];
     [| destruct (ensureAssistantMessage MSG_FALLBACK (w, t)) as [w1 t1] eqn:E;
        assert (Hq := ensure_queued MSG_FALLBACK (w, t));
        assert (Hp := ensure_pending MSG_FALLBACK (w, t));
        rewrite E in Hq, Hp; cbn [fst] in Hq, Hp ]);
    cbn [fst]; (eapply Inv_same; [| | exact HInv]); widget; auto.
Qed.

Lemma decision_Inv act w : Inv w -> Inv (fst (handleReservationDecision act w)).
Proof.
  intros HInv. unfold handleReservationDecision.
  destruct (pendingProposal w) as [p |] eqn:Hpending; [| exact HInv].
  destruct (_ && _).
  - apply Inv_cleared; now widget.
  - destruct (_ && _).
    + apply (@Inv_unqueued w); [now widget | now widget | exact HInv].
    + now apply (@Inv_same w).
Qed.

Lemma decisionCatch_Inv e w : Inv w -> Inv (decisionCatch e w).
Proof. intros HInv. unfold decisionCatch. apply (@Inv_same w); now widget. Qed.

Lemma decisionTry_Inv v w : Inv w -> Inv (decisionTry v w).
Proof.
  intros HInv. unfold decisionTry. cbv zeta.
  set (w1 := if nonEmpty _ then _ else w).
  assert (H1 : Inv w1).
  { subst w1. destruct (nonEmpty _); [| exact HInv]. apply (@Inv_same w); now widget. }
  clearbody w1.
  destruct (schedulerSuccessOf v).
  - now apply Inv_cleared.
  - destruct (match optProp _ "reason" with Some (JStr s) => Some s | _ => None end)
      as [r |]; [| exact H1].
    destruct (nonEmpty r); [| exact H1]. apply (@Inv_same w1); now widget.
Qed.

Lemma settled_Inv act outcome w :
  Inv w -> Inv (handleReservationDecision_settled act outcome w).
Proof.
  intros HInv. unfold handleReservationDecision_settled.
  set (w1 := match outcome with DecisionRejected _ => _ | DecisionResponse _ _ => _ end).
  assert (H1 : Inv w1).
  { subst w1. destruct outcome as [e | st body]; [now apply decisionCatch_Inv |].
    destruct (negb (ok st)); [now apply decisionCatch_Inv |].
    destruct body; [now apply decisionTry_Inv | now apply decisionCatch_Inv]. }
  clearbody w1. unfold decisionFinally.
  destruct act; [now apply (@Inv_same w1) | now apply Inv_cleared].
Qed.

Lemma step_Inv w w' : step numberOfLiteral w w' -> Inv w -> Inv w'.
Proof.
  intros Hstep HInv. destruct Hstep.
  - apply (@Inv_same w); [| | exact HInv]; unfold openPanel; destruct b; reflexivity.
  - now apply (@Inv_same w).
  - apply (@Inv_same w); [| | exact HInv]; now widget.
  - now apply onChunk_Inv.
  - apply (@Inv_same (flushQueuedProposal
                       (fst (onDone (processLine numberOfLiteral)
                               {| buffer := buf; decoder := d; handled := (w, t) |}))));
      [reflexivity | reflexivity |].
    apply Inv_flush. now apply onDone_Inv.
  - apply (@Inv_same (fst (streamCatch e (w, t)))); [reflexivity | reflexivity |].
    now apply streamCatch_Inv.
  - now apply decision_Inv.
  - now apply settled_Inv.
Qed.

Lemma reachable_Inv w : reachable numberOfLiteral w -> Inv w.
Proof.
  induction 1 as [session | w w' _ IH Hstep].
  - cbv. auto.
  - exact (step_Inv _ _ Hstep IH).
Qed.
End InvariantOfTheStream.

(** ** Whole turns are runs of the transition system *)

Section TurnsAreRuns.
Variable numberOfLiteral : string -> JsNumber.

Lemma readChunks_reachable (chunks : list string) (r : Reader (Widget * Turn)) :
  reachable numberOfLiteral (fst (handled r)) ->
  reachable numberOfLiteral
    (fst (handled (readChunks (processLine numberOfLiteral) chunks r))).
Proof.
  revert r. induction chunks as [| c cs IH]; intros r Hr; [exact Hr |].
  cbn [readChunks fold_left].
  change (fold_left (onChunk ?h) cs ?x) with (readChunks h cs x).
  apply IH. eapply reachable_step; [exact Hr |].
  destruct r as [buf d [w t]]. apply step_chunk.
Qed.

Lemma processUserMessage_reachable (message : string) (outcome : StreamOutcome) (w : Widget) :
  reachable numberOfLiteral w ->
  reachable numberOfLiteral (processUserMessage numberOfLiteral message outcome w).
Proof.
  intros Hw. unfold processUserMessage, streamAssistantResponse. cbv zeta.
  set (w0 := setActiveAssistantMessageId None
               (setIsStreaming true (appendNew user message text w))).
  assert (H0 : reachable numberOfLiteral w0)
    by (eapply reachable_step; [exact Hw | apply step_send]).
  clearbody w0.
  destruct outcome as [e | code body].
  - eapply reachable_step; [exact H0 | apply step_catch].
  - destruct (negb (ok code)).
    { eapply reachable_step; [exact H0 | apply step_catch]. }
    destruct body as [[chunks [e |]] |].
    + pose proof (readChunks_reachable chunks (newReader (w0, newTurn)) H0) as Hread.
      destruct (handled _) as [w1 t1].
      eapply reachable_step; [exact Hread | apply step_catch].
    + pose proof (readChunks_reachable chunks (newReader (w0, newTurn)) H0) as Hread.
      unfold readBody.
      destruct (readChunks _ chunks _) as [buf d [w1 t1]].
      cbn [handled fst] in Hread.
      destruct (onDone _ _) as [w2 t2] eqn:Hdone. cbn [fst].
      replace w2 with (fst (onDone (processLine numberOfLiteral)
                              {| buffer := buf; decoder := d; handled := (w1, t1) |}))
        by now rewrite Hdone.
      eapply reachable_step; [exact Hread | apply step_done].
    + eapply reachable_step; [exact H0 | apply step_catch].
Qed.
End TurnsAreRuns.

Lemma afterTurn_reachable (line : string) : reachable literalNumber (afterTurn line).
Proof.
  apply processUserMessage_reachable.
  eapply reachable_step; [apply reachable_initial | apply step_panel].
Qed.

(** ** One proposal at a time *)

Lemma queues_handled (output : JSVal) (p : ReservationProposal) (w : Widget) :
  queues output p ->
  handleToolEvent "check_device_availability" output w
  = Some (setPendingProposal None (setQueuedProposalRef (Some p) w)).
Proof.
  intros (Havailable & Hproposal & Hacceptable).
  rewrite handleToolEvent_check. unfold handleAvailability. cbv zeta.
  rewrite Havailable, Hproposal, Hacceptable. reflexivity.
Qed.

(** C4: in every state the widget can reach, at most one proposal is
    alive, queued or pending; and two qualifying availability results in a
    row, with no promotion in between, leave one proposal queued, the
    second, which the next promotion makes the pending one. *)
Theorem one_proposal_at_a_time
    (numberOfLiteral : string -> JsNumber) (w : Widget)
    (first second : JSVal) (p1 p2 : ReservationProposal) :
  reachable numberOfLiteral w ->
  queues first p1 ->
  queues second p2 ->
  liveProposals w <= 1
  /\ exists w1 w2,
      handleToolEvent "check_device_availability" first w = Some w1
      /\ handleToolEvent "check_device_availability" second w1 = Some w2
      /\ queuedProposalRef w1 = Some p1
      /\ queuedProposalRef w2 = Some p2
      /\ pendingProposal w2 = None
      /\ liveProposals w2 = 1
      /\ messages w2 = messages w
      /\ pendingProposal (flushQueuedProposal w2) = Some p2
      /\ queuedProposalRef (flushQueuedProposal w2) = None.
Proof.
  intros Hreach Hfirst Hsecond. split.
  - apply (reachable_Inv numberOfLiteral w Hreach).
  - eexists. eexists.
    split; [apply (queues_handled _ _ _ Hfirst) |].
    split; [apply (queues_handled _ _ _ Hsecond) |].
    repeat split.
Qed.

Lemma one_proposal_at_a_time_witness :
  liveProposals (afterTurn availabilityLine) <= 1
  /\ exists w1 w2,
      handleToolEvent "check_device_availability" firstOffer (afterTurn availabilityLine)
      = Some w1
      /\ handleToolEvent "check_device_availability" secondOffer w1 = Some w2
      /\ queuedProposalRef w1 = Some demoProposal
      /\ queuedProposalRef w2 = Some secondProposal
      /\ pendingProposal w2 = None
      /\ liveProposals w2 = 1
      /\ messages w2 = messages (afterTurn availabilityLine)
      /\ pendingProposal (flushQueuedProposal w2) = Some secondProposal
      /\ queuedProposalRef (flushQueuedProposal w2) = None.
Proof.
  apply (one_proposal_at_a_time literalNumber (afterTurn availabilityLine)
           firstOffer secondOffer demoProposal secondProposal).
  - apply afterTurn_reachable.
  - repeat split.
  - repeat split.
Defined.

(** ** Pending proposals are complete *)

Lemma not_empty (s : string) : s <> "" -> nonEmpty s = true.
Proof. destruct s; [contradiction | reflexivity]. Qed.

(** C9: a proposal that is pending in a state the widget can reach has a
    non-empty [resource_id] and a non-empty [start_time]; hence a confirm
    on it never takes the branch for a missing [start_time]: it sends the
    request with that [start_time]. *)
Theorem pending_proposal_complete
    (numberOfLiteral : string -> JsNumber) (w : Widget) (p : ReservationProposal) :
  reachable numberOfLiteral w ->
  pendingProposal w = Some p ->
  resource_id p <> ""
  /\ start_time p <> ""
  /\ handleReservationDecision confirm w
     = (setDecisionLoading (Some confirm) w,
        Some {| session_id := sessionId w;
                action := confirm;
                payload_start_time := Some (start_time p);
                payload_reservation_id := None |}).
Proof.
  intros Hreach Hpending.
  destruct (reachable_Inv numberOfLiteral w Hreach) as (_ & Hcomplete & _).
  rewrite Hpending in Hcomplete. destruct Hcomplete as [Hresource Hstart].
  repeat split; try assumption.
  unfold handleReservationDecision. rewrite Hpending.
  cbn [action_eqb andb]. rewrite (not_empty _ Hstart). reflexivity.
Qed.

Lemma pending_proposal_complete_witness :
  resource_id demoProposal <> ""
  /\ start_time demoProposal <> ""
  /\ handleReservationDecision confirm (afterTurn availabilityLine)
     = (setDecisionLoading (Some confirm) (afterTurn availabilityLine),
        Some {| session_id := sessionId (afterTurn availabilityLine);
                action := confirm;
                payload_start_time := Some (start_time demoProposal);
                payload_reservation_id := None |}).
Proof.
  apply (pending_proposal_complete literalNumber (afterTurn availabilityLine) demoProposal).
  - apply afterTurn_reachable.
  - reflexivity.
Defined.

(** ** Identifiers stay fresh *)

Lemma fresh_appendNew r c t w : freshIds w -> freshIds (appendNew r c t w).
Proof.
  unfold freshIds. intros H m n. rewrite appendNew_messages, appendNew_nextUuid.
  intros Hin Hid. apply in_app_or in Hin as [Hin | [<- | []]].
  - specialize (H m n Hin Hid). lia.
  - cbn in Hid. injection Hid as <-. lia.
Qed.

Lemma fresh_update i c w : freshIds w -> freshIds (updateMessageContent i c w).
Proof.
  unfold freshIds, updateMessageContent. cbn [messages nextUuid setMessages].
  intros H m n Hin Hid. apply in_map_iff in Hin as (m0 & <- & Hin).
  apply (H m0 n Hin). destruct (MessageId_eqb (id m0) i); exact Hid.
Qed.

Lemma fresh_ensure c st :
  freshIds (fst st) -> freshIds (fst (ensureAssistantMessage c st)).
Proof.
  destruct st as [w t]. cbn [fst]. intros H. unfold ensureAssistantMessage.
  destruct (assistantMessageId t) as [i |]; cbn [fst randomUUID].
  - now apply fresh_update.
  - apply (fresh_appendNew assistant c text) in H.
    unfold freshIds in *. intros m n.
    rewrite appendMessage_messages, appendMessage_nextUuid.
    rewrite appendNew_messages, appendNew_nextUuid in H. exact (H m n).
Qed.

Lemma fresh_flush w : freshIds w -> freshIds (flushQueuedProposal w).
Proof. unfold flushQueuedProposal. now destruct (queuedProposalRef w). Qed.

Lemma fresh_setPending p w : freshIds w -> freshIds (setPendingProposal p w).
Proof. exact (fun H => H). Qed.

Lemma fresh_setQueued p w : freshIds w -> freshIds (setQueuedProposalRef p w).
Proof. exact (fun H => H). Qed.

Lemma fresh_setLoading a w : freshIds w -> freshIds (setDecisionLoading a w).
Proof. exact (fun H => H). Qed.

Lemma fresh_setActive i w : freshIds w -> freshIds (setActiveAssistantMessageId i w).
Proof. exact (fun H => H). Qed.

Lemma fresh_setStreaming b w : freshIds w -> freshIds (setIsStreaming b w).
Proof. exact (fun H => H). Qed.

Create HintDb fresh.
#[local] Hint Resolve fresh_appendNew fresh_update fresh_flush fresh_setPending
  fresh_setQueued fresh_setLoading fresh_setActive fresh_setStreaming : fresh.

Lemma fresh_handleToolEvent name output w w' :
  freshIds w -> handleToolEvent name output w = Some w' -> freshIds w'.
Proof.
  intros H. unfold handleToolEvent, handleAvailability, handleUpdateStatus. cbv zeta.
  repeat match goal with
         | |- context [if ?b then _ else _] => destruct b
         | |- context [match proposalOf ?x with _ => _ end] => destruct (proposalOf x)
         end;
    intros [= <-]; auto 10 with fresh.
Qed.

Lemma fresh_dispatch event st : freshIds (fst st) -> freshIds (fst (dispatch event st)).
Proof.
  destruct st as [w t]. cbn [fst]. intros H.
  destruct event as [c | c | name output |]; cbn [dispatch].
  - destruct (nonEmpty _); [| exact H]. now apply fresh_ensure.
  - destruct (ensureAssistantMessage c _) as [w1 t1] eqn:E. cbn [fst].
    apply fresh_flush.
    replace w1 with (fst (ensureAssistantMessage c
                            (w, {| assistantMessageId := assistantMessageId t;
                                   assembledContent := c |}))) by now rewrite E.
    now apply fresh_ensure.
  - destruct (handleToolEvent name output w) as [w' |] eqn:E; [| exact H].
    exact (fresh_handleToolEvent _ _ _ _ H E).
  - now apply fresh_flush.
Qed.

Section FreshnessOfTheStream.
Variable numberOfLiteral : string -> JsNumber.

Lemma fresh_processLine line st :
  freshIds (fst st) -> freshIds (fst (processLine numberOfLiteral line st)).
Proof.
  intros H. unfold processLine.
  destruct (negb (nonEmpty line)); [exact H |].
  destruct (JSON_parse numberOfLiteral line) as [v |]; [| exact H].
  destruct (eventOf v) as [event |]; [| exact H].
  now apply fresh_dispatch.
Qed.

Lemma fresh_forLines lines st :
  freshIds (fst st) -> freshIds (fst (forLines (processLine numberOfLiteral) lines st)).
Proof.
  revert st. induction lines as [| l ls IH]; intros st H; [exact H |].
  unfold forLines in *. cbn [fold_left]. apply IH.
  destruct (nonEmpty (trim l)); [now apply fresh_processLine | exact H].
Qed.

Lemma fresh_onChunk r value :
  freshIds (fst (handled r)) ->
  freshIds (fst (handled (onChunk (processLine numberOfLiteral) r value))).
Proof.
  intros H. unfold onChunk. destruct (decode (decoder r) value) as [d out].
  cbn [handled]. now apply fresh_forLines.
Qed.

Lemma fresh_onDone r :
  freshIds (fst (handled r)) -> freshIds (fst (onDone (processLine numberOfLiteral) r)).
Proof.
  intros H. unfold onDone. cbv zeta.
  destruct (nonEmpty _); [now apply fresh_processLine | exact H].
Qed.

Lemma fresh_streamCatch e st : freshIds (fst st) -> freshIds (fst (streamCatch e st)).
Proof.
  destruct st as [w t]. cbn [fst]. intros H. unfold streamCatch.
  destruct e as [m | m |]; [exact H | |]; cbn [fst snd];
    (destruct (assistantMessageId t) as [i |];
     [| pose proof (fresh_ensure MSG_FALLBACK (w, t) H) as H1;
        destruct (ensureAssistantMessage MSG_FALLBACK (w, t)) as [w1 t1] ]);
    cbn [fst] in *; auto with fresh.
Qed.

Lemma fresh_decision act w :
  freshIds w -> freshIds (fst (handleReservationDecision act w)).
Proof.
  intros H. unfold handleReservationDecision.
  destruct (pendingProposal w); [| exact H].
  repeat match goal with
         | |- context [if ?b then _ else _] => destruct b
         end; cbn [fst]; auto with fresh.
Qed.

Lemma fresh_settled act outcome w :
  freshIds w -> freshIds (handleReservationDecision_settled act outcome w).
Proof.
  intros H.
  unfold handleReservationDecision_settled, decisionFinally, decisionCatch, decisionTry.
  cbv zeta.
  repeat match goal with
         | |- context [if ?b then _ else _] => destruct b
         | |- context [match ?x with DecisionRejected _ => _ | DecisionResponse _ _ => _ end] =>
             destruct x
         | |- context [match ?x with JsonValue _ => _ | JsonRejected _ => _ end] =>
             destruct x
         | |- context [match ?x with confirm => _ | cancel => _ end] => destruct x
         | |- context [match ?x with Some _ => _ | None => _ end] => destruct x
         | |- context [match ?x with JNull => _ | _ => _ end] => destruct x
         end; auto 10 with fresh.
Qed.

Lemma fresh_step w w' : step numberOfLiteral w w' -> freshIds w -> freshIds w'.
Proof.
  intros Hstep H. destruct Hstep.
  - unfold openPanel. now destruct b.
  - exact H.
  - auto with fresh.
  - now apply fresh_onChunk.
  - apply fresh_setActive, fresh_setStreaming, fresh_flush. now apply fresh_onDone.
  - apply fresh_setActive, fresh_setStreaming. now apply fresh_streamCatch.
  - now apply fresh_decision.
  - now apply fresh_settled.
Qed.

(** The hypothesis of [tokens_one_turn] holds in every state the widget
    can reach. *)
Lemma reachable_fresh w : reachable numberOfLiteral w -> freshIds w.
Proof.
  induction 1 as [session | w w' _ IH Hstep].
  - apply initial_fresh.
  - exact (fresh_step _ _ Hstep IH).
Qed.
End FreshnessOfTheStream.

(** * More of the component *)

(** ** Availability results *)

Lemma availability_result_pending (output : JSVal) (w w' : Widget) :
  handleToolEvent "check_device_availability" output w = Some w' ->
  pendingProposal w' = None.
Proof.
  rewrite handleToolEvent_check. unfold handleAvailability. cbv zeta.
  destruct (flagOf "available" _).
  - destruct (proposalOf _) as [proposal |]; [| discriminate].
    destruct (acceptable proposal); intros [= <-]; now widget.
  - intros [= <-]. now widget.
Qed.

(** X1: whatever a [check_device_availability] result carries, it takes
    the pending card away; then either a complete proposal is queued and
    the timeline is untouched, or nothing is queued and exactly one status
    turn is appended. *)
Theorem availability_result (output : JSVal) (w w' : Widget) :
  handleToolEvent "check_device_availability" output w = Some w' ->
  pendingProposal w' = None
  /\ ((exists p, queuedProposalRef w' = Some p
                 /\ resource_id p <> "" /\ start_time p <> ""
                 /\ messages w' = messages w)
      \/ (queuedProposalRef w' = None
          /\ exists c, messages w' = (messages w ++ [statusTurn w c])%list)).
Proof.
  rewrite handleToolEvent_check. unfold handleAvailability. cbv zeta.
  destruct (flagOf "available" _).
  - destruct (proposalOf _) as [proposal |]; [| discriminate].
    destruct (acceptable proposal) eqn:Hacc; intros [= <-].
    + destruct proposal as [p |]; [| discriminate].
      split; [reflexivity |]. left. exists p.
      destruct (acceptable_complete p Hacc) as [Hr Hs]. repeat split; assumption.
    + split; [now widget |]. right. split; [now widget |].
      exists MSG_FORMAT. now widget.
  - intros [= <-]. split; [now widget |]. right. split; [now widget |].
    eexists. now widget.
Qed.

Lemma availability_result_witness :
  pendingProposal
    (setPendingProposal None
       (setQueuedProposalRef (Some secondProposal) (afterTurn availabilityLine))) = None
  /\ ((exists p,
          queuedProposalRef
            (setPendingProposal None
               (setQueuedProposalRef (Some secondProposal) (afterTurn availabilityLine)))
          = Some p
          /\ resource_id p <> "" /\ start_time p <> ""
          /\ messages
               (setPendingProposal None
                  (setQueuedProposalRef (Some secondProposal) (afterTurn availabilityLine)))
             = messages (afterTurn availabilityLine))
      \/ (queuedProposalRef
            (setPendingProposal None
               (setQueuedProposalRef (Some secondProposal) (afterTurn availabilityLine)))
          = None
          /\ exists c,
              messages
                (setPendingProposal None
                   (setQueuedProposalRef (Some secondProposal) (afterTurn availabilityLine)))
              = (messages (afterTurn availabilityLine)
                 ++ [statusTurn (afterTurn availabilityLine) c])%list)).
Proof.
  apply (availability_result secondOffer (afterTurn availabilityLine)).
  reflexivity.
Defined.

(** X2: a result that does not report availability clears the queued and
    the pending proposal and appends one status turn with the reason given,
    or with the stock sentence when the reason is not a string. *)
Theorem unavailable_result (output : JSVal) (w : Widget) :
  flagOf "available" (nullish output (JObj [])) = false ->
  exists w',
    handleToolEvent "check_device_availability" output w = Some w'
    /\ queuedProposalRef w' = None
    /\ pendingProposal w' = None
    /\ messages w'
       = (messages w
          ++ [statusTurn w (orElse (reasonOf (nullish output (JObj []))) MSG_UNAVAILABLE)])%list.
Proof.
  intros Hflag. eexists. split.
  - rewrite handleToolEvent_check. unfold handleAvailability. cbv zeta.
    rewrite Hflag. reflexivity.
  - widget. repeat split.
Qed.

Lemma unavailable_result_witness :
  exists w',
    handleToolEvent "check_device_availability"
      (Some (JObj [("available", JBool false); ("reason", JNum (literalNumber "7"))]))
      (afterTurn availabilityLine) = Some w'
    /\ queuedProposalRef w' = None
    /\ pendingProposal w' = None
    /\ messages w'
       = (messages (afterTurn availabilityLine)
          ++ [statusTurn (afterTurn availabilityLine) MSG_UNAVAILABLE])%list.
Proof.
  apply (unavailable_result
           (Some (JObj [("available", JBool false); ("reason", JNum (literalNumber "7"))]))
           (afterTurn availabilityLine)).
  reflexivity.
Defined.





(** ** Update results *)

(** X4: a successful [update_reservation_status] leaves no proposal, queued
    or pending, and appends the one status turn that says so. *)
Theorem update_success_clears (output : JSVal) (w : Widget) :
  flagOf "success" (nullish output (JObj [])) = true ->
  exists w',
    handleToolEvent "update_reservation_status" output w = Some w'
    /\ liveProposals w' = 0
    /\ messages w' = (messages w ++ [statusTurn w MSG_UPDATED])%list.
Proof.
  intros Hflag. eexists. split; [apply handleToolEvent_update |].
  unfold handleUpdateStatus, liveProposals. cbv zeta. rewrite Hflag.
  widget. split; reflexivity.
Qed.

Lemma update_success_clears_witness :
  exists w',
    handleToolEvent "update_reservation_status"
      (Some (JObj [("success", JStr "yes")])) (afterTurn availabilityLine) = Some w'
    /\ liveProposals w' = 0
    /\ messages w'
       = (messages (afterTurn availabilityLine)
          ++ [statusTurn (afterTurn availabilityLine) MSG_UPDATED])%list.
Proof.
  apply (update_success_clears (Some (JObj [("success", JStr "yes")]))
           (afterTurn availabilityLine)).
  reflexivity.
Defined.

Lemma tool_keeps_no_pending name output w w' :
  pendingProposal w = None ->
  handleToolEvent name output w = Some w' ->
  pendingProposal w' = None.
Proof.
  intros Hnone. unfold handleToolEvent, handleAvailability, handleUpdateStatus. cbv zeta.
  repeat match goal with
         | |- context [if ?b then _ else _] => destruct b
         | |- context [match proposalOf ?x with _ => _ end] => destruct (proposalOf x)
         end;
    intros [= <-]; widget; auto.
Qed.

Lemma quiet_events_keep_no_pending (evs : list StreamEvent) (st : Widget * Turn) :
  Forall (fun ev => promotes ev = false) evs ->
  pendingProposal (fst st) = None ->
  pendingProposal (fst (events evs st)) = None.
Proof.
  intros Hquiet. revert st. induction Hquiet as [| ev evs Hev _ IH]; intros st Hnone;
    [exact Hnone |].
  unfold events in *. cbn [fold_left]. apply IH.
  destruct st as [w t]. cbn [fst] in Hnone.
  destruct ev as [c | c | name output |]; try discriminate Hev; cbn [dispatch].
  - destruct (nonEmpty _); [| exact Hnone]. now rewrite ensure_pending.
  - destruct (handleToolEvent name output w) as [w' |] eqn:E; [| exact Hnone].
    exact (tool_keeps_no_pending _ _ _ _ Hnone E).
Qed.

(** X5: an update result that comes after an availability result with no
    [message] and no [done] event in between (tokens and other tool results
    may come between them) discards the proposal, whether the update
    succeeded or not: no proposal is queued or pending, and the end of the
    turn has nothing to show. *)
Theorem update_after_availability (offer result : JSVal) (w w1 : Widget) (t : Turn)
    (between : list StreamEvent) :
  handleToolEvent "check_device_availability" offer w = Some w1 ->
  Forall (fun ev => promotes ev = false) between ->
  exists w3,
    handleToolEvent "update_reservation_status" result (fst (events between (w1, t)))
    = Some w3
    /\ liveProposals w3 = 0
    /\ pendingProposal (flushQueuedProposal w3) = None.
Proof.
  intros Hoffer Hquiet.
  pose proof (availability_result_pending offer w w1 Hoffer) as Hpending.
  pose proof (quiet_events_keep_no_pending between (w1, t) Hquiet Hpending) as Hnone.
  eexists. split; [apply handleToolEvent_update |].
  unfold handleUpdateStatus, liveProposals, flushQueuedProposal. cbv zeta.
  destruct (flagOf "success" _); widget; rewrite ?Hnone; split; reflexivity.
Qed.

Lemma update_after_availability_witness :
  exists w3,
    handleToolEvent "update_reservation_status" failedUpdate
      (fst (events [StreamTokenEvent "好"; ToolEventPayload "get_weather" None;
                    ToolEventPayload "check_device_availability" firstOffer]
              (setPendingProposal None
                 (setQueuedProposalRef (Some secondProposal) (afterTurn availabilityLine)),
               newTurn)))
    = Some w3
    /\ liveProposals w3 = 0
    /\ pendingProposal (flushQueuedProposal w3) = None.
Proof.
  apply (update_after_availability secondOffer failedUpdate (afterTurn availabilityLine)
           (setPendingProposal None
              (setQueuedProposalRef (Some secondProposal) (afterTurn availabilityLine)))
           newTurn
           [StreamTokenEvent "好"; ToolEventPayload "get_weather" None;
            ToolEventPayload "check_device_availability" firstOffer]).
  - reflexivity.
  - repeat constructor.
Defined.

(** ** Message events *)

Lemma flush_messages w : messages (flushQueuedProposal w) = messages w.
Proof. unfold flushQueuedProposal. now destruct (queuedProposalRef w). Qed.

Lemma flush_flush w : flushQueuedProposal (flushQueuedProposal w) = flushQueuedProposal w.
Proof. unfold flushQueuedProposal. now destruct (queuedProposalRef w) eqn:E; cbn; rewrite ?E. Qed.

Lemma flush_update i c w :
  updateMessageContent i c (flushQueuedProposal w)
  = flushQueuedProposal (updateMessageContent i c w).
Proof.
  unfold flushQueuedProposal, updateMessageContent. cbn [queuedProposalRef setMessages].
  now destruct (queuedProposalRef w).
Qed.

Lemma update_update i c w :
  updateMessageContent i c (updateMessageContent i c w) = updateMessageContent i c w.
Proof.
  unfold updateMessageContent, setMessages. cbn. f_equal.
  rewrite map_map. apply map_ext. intros m.
  destruct (MessageId_eqb (id m) i) eqn:E; cbn; now rewrite E.
Qed.

Lemma opened_messages w c : messages (opened w c) = (messages w ++ [assistantTurn w c])%list.
Proof.
  unfold opened, ensureAssistantMessage. cbn [assistantMessageId newTurn randomUUID fst].
  now rewrite appendMessage_messages.
Qed.

(** After nothing but tokens, a [message] event leaves the one assistant
    turn of the stream, created if need be, with the content of the
    message. *)
Lemma message_supersedes_tokens (w : Widget) (cs : list string) (c : string) :
  freshIds w ->
  let (w', t) := dispatch (StreamMessageEvent c) (tokens cs (w, newTurn)) in
  messages w' = (messages w ++ [assistantTurn w c])%list
  /\ assembledContent t = c
  /\ assistantMessageId t = Some (uuid (nextUuid w)).
Proof.
  intros Hfresh.
  pose proof (tokens_from w cs "" Hfresh) as H.
  change (afterTokens w "") with (w, newTurn) in H.
  change ("" ++ joinText cs) with (joinText cs) in H.
  rewrite H. unfold afterTokens.
  destruct (nonEmpty (joinText cs)).
  - cbn [dispatch ensureAssistantMessage assistantMessageId assembledContent].
    rewrite update_opened by assumption.
    rewrite flush_messages, opened_messages. repeat split.
  - cbn [dispatch]. unfold newTurn at 1. cbn [assistantMessageId].
    change (ensureAssistantMessage c (w, {| assistantMessageId := None; assembledContent := c |}))
      with (opened w c, {| assistantMessageId := Some (uuid (nextUuid w));
                           assembledContent := c |}).
    cbv beta iota. rewrite flush_messages, opened_messages. repeat split.
Qed.

Lemma message_supersedes_tokens_witness :
  let (w', t) := dispatch (StreamMessageEvent "")
                   (tokens ["您"; "好"] (initialWidget "session", newTurn)) in
  messages w'
  = (messages (initialWidget "session") ++ [assistantTurn (initialWidget "session") ""])%list
  /\ assembledContent t = ""
  /\ assistantMessageId t = Some (uuid (nextUuid (initialWidget "session"))).
Proof.
  apply (message_supersedes_tokens (initialWidget "session") ["您"; "好"] "").
  apply initial_fresh.
Defined.

(** X7: handling the same [message] event twice leaves the widget and the
    turn as handling it once does. *)
Theorem message_twice (w : Widget) (t : Turn) (c : string) :
  freshIds w ->
  dispatch (StreamMessageEvent c) (dispatch (StreamMessageEvent c) (w, t))
  = dispatch (StreamMessageEvent c) (w, t).
Proof.
  intros Hfresh. destruct t as [[i |] a].
  - cbn [dispatch ensureAssistantMessage assistantMessageId assembledContent].
    now rewrite flush_update, update_update, flush_flush.
  - cbn [dispatch assistantMessageId].
    change (ensureAssistantMessage c (w, {| assistantMessageId := None; assembledContent := c |}))
      with (opened w c, {| assistantMessageId := Some (uuid (nextUuid w));
                           assembledContent := c |}).
    cbv beta iota.
    cbn [dispatch ensureAssistantMessage assistantMessageId assembledContent].
    now rewrite flush_update, update_opened, flush_flush.
Qed.

Lemma message_twice_witness :
  dispatch (StreamMessageEvent "收到")
    (dispatch (StreamMessageEvent "收到") (afterTurn availabilityLine, newTurn))
  = dispatch (StreamMessageEvent "收到") (afterTurn availabilityLine, newTurn).
Proof.
  apply (message_twice (afterTurn availabilityLine) newTurn "收到").
  apply (reachable_fresh literalNumber), afterTurn_reachable.
Defined.

(** ** Lines that are handed over, lines that are skipped *)

Section EveryLine.
Variable S : Type.
Variable handler : string -> S -> S.

Lemma forLines_handedOver (lines : list string) (s : S) :
  forLines handler lines s = fold_left (fun s line => handler line s) (handedOver lines) s.
Proof.
  revert s. induction lines as [| l ls IH]; intros s; [reflexivity |].
  unfold forLines, handedOver in *. cbn [fold_left map filter].
  destruct (nonEmpty (trim l)); cbn [fold_left]; apply IH.
Qed.

(** X8: whatever the lines of the stream are, the loop hands each of them
    over without the white space around it, in order, and skips the lines
    that are blank; a last line without line feed is treated like the
    others. *)
Theorem lines_trimmed_blank_skipped
    (chunks lines : list string) (rest : string) (s : S) :
  Forall (fun l => isText l && noLF l = true) lines ->
  isText rest && noLF rest = true ->
  joinText chunks = unlines lines ++ rest ->
  readBody handler chunks s
  = fold_left (fun s line => handler line s) (handedOver (lines ++ [rest])) s.
Proof.
  intros Hlines Hrest Hjoin.
  apply andb_true_iff in Hrest as [Htext Hlf].
  assert (Htexts : Forall (fun l => isText l = true) lines)
    by (eapply Forall_impl; [| exact Hlines]; cbv beta; intros l H;
        now apply andb_true_iff in H).
  assert (Hlfs : Forall (fun l => noLF l = true) lines)
    by (eapply Forall_impl; [| exact Hlines]; cbv beta; intros l H;
        now apply andb_true_iff in H).
  unfold readBody. rewrite readChunks_decode by reflexivity.
  cbn [buffer decoder handled newReader]. rewrite Hjoin.
  destruct (decode_records lines rest false Htexts Htext) as [bom Hdecode].
  unfold newDecoder. rewrite Hdecode.
  change ("" ++ ?x) with x.
  rewrite (split_unlines lines rest Hlfs Hlf), removelast_last, last_last.
  unfold onDone. cbn [buffer decoder handled decodeEnd idle bytesNeeded].
  rewrite append_empty_r, forLines_handedOver.
  unfold handedOver. rewrite map_app, filter_app, fold_left_app. cbn [map filter].
  destruct (nonEmpty (trim rest)); reflexivity.
Qed.
End EveryLine.

Lemma lines_trimmed_blank_skipped_witness :
  readBody (fun line seen => seen ++ [line])%list
    ["  " ++ demoLine1 ++ bytes [13; 10; 10; 9]; bytes [10] ++ demoLine3 ++ " "] []
  = fold_left (fun seen line => seen ++ [line])%list
      (handedOver (["  " ++ demoLine1 ++ bytes [13]; ""; bytes [9]] ++ [demoLine3 ++ " "]))
      [].
Proof.
  apply (lines_trimmed_blank_skipped (list string) (fun line seen => seen ++ [line])%list
           ["  " ++ demoLine1 ++ bytes [13; 10; 10; 9]; bytes [10] ++ demoLine3 ++ " "]
           ["  " ++ demoLine1 ++ bytes [13]; ""; bytes [9]] (demoLine3 ++ " ") []).
  - repeat constructor.
  - reflexivity.
  - reflexivity.
Defined.

Section MalformedLines.
Variable numberOfLiteral : string -> JsNumber.

(** X9: a line that is not JSON changes nothing and stops nothing: the
    state after a run of lines is the state after the lines among them that
    parse. *)
Theorem malformed_lines_dropped (lines : list string) (st : Widget * Turn) :
  fold_left (fun st line => processLine numberOfLiteral line st) lines st
  = fold_left (fun st line => processLine numberOfLiteral line st)
      (filter (parses numberOfLiteral) lines) st.
Proof.
  revert st. induction lines as [| l ls IH]; intros st; [reflexivity |].
  cbn [fold_left filter]. unfold parses at 1.
  destruct (JSON_parse numberOfLiteral l) as [v |] eqn:Hparse.
  - cbn [fold_left]. apply IH.
  - rewrite <- IH. f_equal. unfold processLine. rewrite Hparse.
    now destruct (negb (nonEmpty l)).
Qed.
End MalformedLines.

(** ** Streams that fail *)

Section FailedStreams.
Variable numberOfLiteral : string -> JsNumber.

(** X10: a response whose status is no success opens no body: the
    assistant turn with the apology and one status turn with the status
    code are appended, the proposals stay as they are, and the widget is no
    longer streaming. *)
Theorem refused_stream (code : nat) (body : option (list string * option Thrown))
    (w : Widget) :
  ok code = false ->
  let w' := streamAssistantResponse numberOfLiteral (StreamResponse code body) w in
  messages w'
  = (messages w
     ++ [assistantTurn w MSG_FALLBACK;
         {| id := uuid (S (nextUuid w)); role := system;
            content := "错误信息: " ++ "请求失败 (" ++ decimal code ++ ")";
            type := status |}])%list
  /\ isStreaming w' = false
  /\ activeAssistantMessageId w' = None
  /\ pendingProposal w' = pendingProposal w
  /\ queuedProposalRef w' = queuedProposalRef w.
Proof.
  intros Hok. unfold streamAssistantResponse. cbv zeta. rewrite Hok.
  cbn [negb streamCatch newTurn snd fst assistantMessageId ensureAssistantMessage randomUUID].
  unfold streamFinally. cbn [isStreaming activeAssistantMessageId setIsStreaming
                               setActiveAssistantMessageId messages pendingProposal
                               queuedProposalRef fst].
  widget. rewrite <- app_assoc. repeat split.
Qed.

Lemma streamCatch_queued e st :
  queuedProposalRef (fst (streamCatch e st)) = queuedProposalRef (fst st).
Proof.
  destruct st as [w t]. unfold streamCatch.
  destruct e as [m | m |]; [reflexivity | |]; cbn [fst snd];
    (destruct (assistantMessageId t) as [i |];
     [| pose proof (ensure_queued MSG_FALLBACK (w, t)) as H;
        destruct (ensureAssistantMessage MSG_FALLBACK (w, t)) as [w1 t1] ]);
    cbn [fst] in *; widget; auto.
Qed.

Lemma streamCatch_pending e st :
  pendingProposal (fst (streamCatch e st)) = pendingProposal (fst st).
Proof.
  destruct st as [w t]. unfold streamCatch.
  destruct e as [m | m |]; [reflexivity | |]; cbn [fst snd];
    (destruct (assistantMessageId t) as [i |];
     [| pose proof (ensure_pending MSG_FALLBACK (w, t)) as H;
        destruct (ensureAssistantMessage MSG_FALLBACK (w, t)) as [w1 t1] ]);
    cbn [fst] in *; widget; auto.
Qed.

(** X11: when the reading of the body fails, nothing is promoted: the
    queued and the pending proposal are the ones the chunks read so far
    have left, and the buffered rest of the text is not handled; when the
    failure is an abort the timeline too is the one the chunks have left. *)
Theorem broken_stream (code : nat) (chunks : list string) (e : Thrown) (w : Widget) :
  ok code = true ->
  let w' := streamAssistantResponse numberOfLiteral
              (StreamResponse code (Some (chunks, Some e))) w in
  queuedProposalRef w' = queuedProposalRef (afterChunks numberOfLiteral chunks w)
  /\ pendingProposal w' = pendingProposal (afterChunks numberOfLiteral chunks w)
  /\ isStreaming w' = false
  /\ ((exists m, e = AbortError m) -> messages w' = messages (afterChunks numberOfLiteral chunks w)).
Proof.
  intros Hok. unfold streamAssistantResponse, afterChunks. cbv zeta. rewrite Hok.
  cbn [negb]. unfold streamFinally.
  cbn [queuedProposalRef pendingProposal isStreaming messages setIsStreaming
         setActiveAssistantMessageId].
  rewrite streamCatch_queued, streamCatch_pending.
  repeat split. intros [m ->]. reflexivity.
Qed.
End FailedStreams.

Lemma refused_stream_witness :
  let w' := streamAssistantResponse literalNumber (StreamResponse 500 None)
              (afterTurn availabilityLine) in
  messages w'
  = (messages (afterTurn availabilityLine)
     ++ [assistantTurn (afterTurn availabilityLine) MSG_FALLBACK;
         {| id := uuid (S (nextUuid (afterTurn availabilityLine))); role := system;
            content := "错误信息: " ++ "请求失败 (" ++ decimal 500 ++ ")";
            type := status |}])%list
  /\ isStreaming w' = false
  /\ activeAssistantMessageId w' = None
  /\ pendingProposal w' = pendingProposal (afterTurn availabilityLine)
  /\ queuedProposalRef w' = queuedProposalRef (afterTurn availabilityLine).
Proof.
  apply (refused_stream literalNumber 500 None (afterTurn availabilityLine)).
  reflexivity.
Defined.

Lemma broken_stream_witness :
  let w' := streamAssistantResponse literalNumber
              (StreamResponse 200
                 (Some ([availabilityLine ++ NL], Some (ErrorObject "network error"))))
              (initialWidget "session") in
  queuedProposalRef w'
  = queuedProposalRef (afterChunks literalNumber [availabilityLine ++ NL]
                         (initialWidget "session"))
  /\ pendingProposal w'
     = pendingProposal (afterChunks literalNumber [availabilityLine ++ NL]
                          (initialWidget "session"))
  /\ isStreaming w' = false
  /\ ((exists m, ErrorObject "network error" = AbortError m) ->
      messages w'
      = messages (afterChunks literalNumber [availabilityLine ++ NL]
                    (initialWidget "session"))).
Proof.
  apply (broken_stream literalNumber 200 [availabilityLine ++ NL]
           (ErrorObject "network error") (initialWidget "session")).
  reflexivity.
Defined.

(** ** A turn leaves the earlier turns alone *)

Section EarlierTurns.
Variable numberOfLiteral : string -> JsNumber.
Variable old : list ChatMessage.
Variable n0 : nat.
Hypothesis old_before : forall m k, In m old -> id m = uuid k -> k < n0.

Lemma keeps_appendNew r c ty w t :
  keeps old n0 (w, t) -> keeps old n0 (appendNew r c ty w, t).
Proof.
  unfold keeps. cbn [fst snd]. intros ([more Hm] & Hn & Hid).
  rewrite appendNew_messages, appendNew_nextUuid, Hm, <- app_assoc.
  split; [eexists; reflexivity |]. split; [lia | exact Hid].
Qed.

Lemma old_unchanged i c k :
  i = uuid k -> n0 <= k ->
  map (fun msg => if MessageId_eqb (id msg) i then withContent c msg else msg) old = old.
Proof.
  intros -> Hk. induction old as [| m ms IH] in old_before |- *; [reflexivity |].
  cbn [map]. rewrite IH by (intros; eapply old_before; [right |]; eassumption).
  destruct (id m) as [| j] eqn:Hid; [reflexivity |].
  cbn. pose proof (old_before m j (or_introl eq_refl) Hid) as Hj.
  replace (j =? k)%nat with false by (symmetry; apply Nat.eqb_neq; lia).
  reflexivity.
Qed.

Lemma keeps_update i c w t :
  assistantMessageId t = Some i ->
  keeps old n0 (w, t) -> keeps old n0 (updateMessageContent i c w, t).
Proof.
  unfold keeps. cbn [fst snd]. intros Hi ([more Hm] & Hn & Hid).
  destruct (Hid i Hi) as (k & Hk & Hle).
  unfold updateMessageContent. cbn [messages nextUuid setMessages].
  rewrite Hm, map_app, (old_unchanged i c k Hk Hle).
  split; [eexists; reflexivity |]. split; assumption.
Qed.

Lemma keeps_content w t c :
  keeps old n0 (w, t) ->
  keeps old n0 (w, {| assistantMessageId := assistantMessageId t; assembledContent := c |}).
Proof. exact (fun H => H). Qed.

Lemma keeps_ensure c st : keeps old n0 st -> keeps old n0 (ensureAssistantMessage c st).
Proof.
  destruct st as [w t]. intros H. unfold ensureAssistantMessage.
  destruct (assistantMessageId t) as [i |] eqn:Hi.
  - now apply keeps_update.
  - destruct H as ([more Hm] & Hn & _). unfold keeps.
    cbn [fst snd randomUUID assistantMessageId].
    rewrite appendMessage_messages, appendMessage_nextUuid.
    cbn [messages nextUuid setActiveAssistantMessageId]. cbn [fst] in Hm, Hn.
    rewrite Hm, <- app_assoc.
    split; [eexists; reflexivity |]. split; [lia |].
    intros i [= <-]. exists (nextUuid w). split; [reflexivity | exact Hn].
Qed.

Lemma keeps_flush w t : keeps old n0 (w, t) -> keeps old n0 (flushQueuedProposal w, t).
Proof. unfold flushQueuedProposal. now destruct (queuedProposalRef w). Qed.

Lemma keeps_tool name output w w' t :
  handleToolEvent name output w = Some w' -> keeps old n0 (w, t) -> keeps old n0 (w', t).
Proof.
  intros Htool H. revert Htool.
  unfold handleToolEvent, handleAvailability, handleUpdateStatus. cbv zeta.
  repeat match goal with
         | |- context [if ?b then _ else _] => destruct b
         | |- context [match proposalOf ?x with _ => _ end] => destruct (proposalOf x)
         end;
    intros [= <-];
    repeat first [exact H | apply keeps_appendNew].
Qed.

Lemma keeps_dispatch event st : keeps old n0 st -> keeps old n0 (dispatch event st).
Proof.
  destruct st as [w t]. intros H.
  destruct event as [c | c | name output |]; cbn [dispatch].
  - destruct (nonEmpty _); [apply keeps_ensure |]; now apply keeps_content.
  - pose proof (keeps_ensure c _ (keeps_content w t c H)) as H1.
    destruct (ensureAssistantMessage c _) as [w1 t1]. now apply keeps_flush.
  - destruct (handleToolEvent name output w) as [w' |] eqn:E; [| exact H].
    exact (keeps_tool _ _ _ _ _ E H).
  - now apply keeps_flush.
Qed.

Lemma keeps_processLine line st :
  keeps old n0 st -> keeps old n0 (processLine numberOfLiteral line st).
Proof.
  intros H. unfold processLine.
  destruct (negb (nonEmpty line)); [exact H |].
  destruct (JSON_parse numberOfLiteral line) as [v |]; [| exact H].
  destruct (eventOf v) as [event |]; [| exact H].
  now apply keeps_dispatch.
Qed.

Lemma keeps_forLines lines st :
  keeps old n0 st -> keeps old n0 (forLines (processLine numberOfLiteral) lines st).
Proof.
  revert st. induction lines as [| l ls IH]; intros st H; [exact H |].
  unfold forLines in *. cbn [fold_left]. apply IH.
  destruct (nonEmpty (trim l)); [now apply keeps_processLine | exact H].
Qed.

Lemma keeps_readChunks chunks r :
  keeps old n0 (handled r) ->
  keeps old n0 (handled (readChunks (processLine numberOfLiteral) chunks r)).
Proof.
  revert r. induction chunks as [| c cs IH]; intros r H; [exact H |].
  cbn [readChunks fold_left].
  change (fold_left (onChunk ?h) cs ?x) with (readChunks h cs x).
  apply IH. unfold onChunk. destruct (decode (decoder r) c) as [d out].
  cbn [handled]. now apply keeps_forLines.
Qed.

Lemma keeps_onDone r :
  keeps old n0 (handled r) -> keeps old n0 (onDone (processLine numberOfLiteral) r).
Proof.
  intros H. unfold onDone. cbv zeta.
  destruct (nonEmpty _); [now apply keeps_processLine | exact H].
Qed.

Lemma keeps_streamCatch e st : keeps old n0 st -> keeps old n0 (streamCatch e st).
Proof.
  destruct st as [w t]. intros H. unfold streamCatch.
  destruct e as [m | m |]; [exact H | |]; cbn [fst snd];
    (destruct (assistantMessageId t) as [i |] eqn:Hi;
     [ apply keeps_appendNew; now apply keeps_update
     | pose proof (keeps_ensure MSG_FALLBACK (w, t) H) as H1;
       destruct (ensureAssistantMessage MSG_FALLBACK (w, t)) as [w1 t1];
       now apply keeps_appendNew ]).
Qed.

Lemma keeps_stream outcome w :
  keeps old n0 (w, newTurn) ->
  exists more,
    messages (streamAssistantResponse numberOfLiteral outcome w) = (old ++ more)%list.
Proof.
  intros H. unfold streamAssistantResponse, streamFinally. cbv zeta.
  cbn [messages setActiveAssistantMessageId setIsStreaming].
  set (st := (setActiveAssistantMessageId None (setIsStreaming true w), newTurn)).
  assert (H0 : keeps old n0 st) by exact H. clearbody st.
  match goal with
  | |- exists more, messages (fst ?x) = _ => assert (Hx : keeps old n0 x)
  end.
  { destruct outcome as [e | code body]; [now apply keeps_streamCatch |].
    destruct (negb (ok code)); [now apply keeps_streamCatch |].
    destruct body as [[chunks [e |]] |]; [| | now apply keeps_streamCatch].
    - apply keeps_streamCatch. now apply (keeps_readChunks chunks (newReader st)).
    - pose proof (keeps_onDone _ (keeps_readChunks chunks (newReader st) H0)) as H1.
      unfold readBody. destruct (onDone _ _) as [w1 t1]. now apply keeps_flush. }
  exact (proj1 Hx).
Qed.
End EarlierTurns.

(** X12: a whole turn, however its stream goes, rewrites no earlier turn:
    the timeline afterwards is the timeline before, then the message of the
    user, then what the stream has added. *)
Theorem earlier_turns_untouched
    (numberOfLiteral : string -> JsNumber) (message : string)
    (outcome : StreamOutcome) (w : Widget) :
  freshIds w ->
  exists more,
    messages (processUserMessage numberOfLiteral message outcome w)
    = (messages w
       ++ {| id := uuid (nextUuid w); role := user; content := message; type := text |}
          :: more)%list.
Proof.
  intros Hfresh. unfold processUserMessage.
  destruct (keeps_stream numberOfLiteral
              (messages (appendNew user message text w)) (S (nextUuid w))) with
    (outcome := outcome) (w := appendNew user message text w) as [more Hmore].
  - intros m k. rewrite appendNew_messages. intros Hin Hid.
    apply in_app_or in Hin as [Hin | [<- | []]].
    + specialize (Hfresh m k Hin Hid). lia.
    + cbn in Hid. injection Hid as <-. lia.
  - unfold keeps. cbn [fst snd]. split; [exists []; now rewrite app_nil_r |].
    split; [rewrite appendNew_nextUuid; lia | discriminate].
  - exists more. rewrite Hmore, appendNew_messages, <- app_assoc. reflexivity.
Qed.

Lemma earlier_turns_untouched_witness :
  exists more,
    messages (processUserMessage literalNumber "再约一次"
                (StreamResponse 200 (Some ([demoChunk1; demoChunk2], None)))
                (afterTurn availabilityLine))
    = (messages (afterTurn availabilityLine)
       ++ {| id := uuid (nextUuid (afterTurn availabilityLine)); role := user;
             content := "再约一次"; type := text |}
          :: more)%list.
Proof.
  apply (earlier_turns_untouched literalNumber "再约一次"
           (StreamResponse 200 (Some ([demoChunk1; demoChunk2], None)))
           (afterTurn availabilityLine)).
  apply (reachable_fresh literalNumber), afterTurn_reachable.
Defined.

(** ** Decision requests *)

(** X13: a decision request that is sent belongs to the pending proposal:
    it carries the session, the action, and for a confirm the non-empty
    [start_time] alone, for a cancel the non-empty [reservation_id] alone;
    sending it changes nothing but [decisionLoading]. *)
Theorem request_shape (act : ReservationDecisionAction) (w : Widget)
    (request : DecisionPayload) :
  snd (handleReservationDecision act w) = Some request ->
  fst (handleReservationDecision act w) = setDecisionLoading (Some act) w
  /\ session_id request = sessionId w
  /\ action request = act
  /\ exists p,
      pendingProposal w = Some p
      /\ match act with
         | confirm =>
             payload_start_time request = Some (start_time p)
             /\ start_time p <> ""
             /\ payload_reservation_id request = None
         | cancel =>
             payload_start_time request = None
             /\ exists r, reservation_id p = Some r /\ r <> ""
                          /\ payload_reservation_id request = Some r
         end.
Proof.
  unfold handleReservationDecision.
  destruct (pendingProposal w) as [p |]; [| discriminate].
  destruct act; cbn [action_eqb andb].
  - destruct (nonEmpty (start_time p)) eqn:Hstart; cbn [negb fst snd]; [| discriminate].
    intros [= <-]. repeat split. exists p. repeat split.
    intros E. rewrite E in Hstart. discriminate.
  - destruct (present (reservation_id p)) eqn:Hid; cbn [negb fst snd]; [| discriminate].
    intros [= <-]. repeat split. exists p. repeat split.
    destruct (reservation_id p) as [r |]; [| discriminate].
    exists r. repeat split. intros E. rewrite E in Hid. discriminate.
Qed.

Lemma request_shape_witness :
  let request := {| session_id := "session"; action := cancel;
                    payload_start_time := None;
                    payload_reservation_id := Some "r-1" |} in
  fst (handleReservationDecision cancel (afterTurn heldLine))
  = setDecisionLoading (Some cancel) (afterTurn heldLine)
  /\ session_id request = sessionId (afterTurn heldLine)
  /\ action request = cancel
  /\ exists p,
      pendingProposal (afterTurn heldLine) = Some p
      /\ payload_start_time request = None
      /\ exists r, reservation_id p = Some r /\ r <> ""
                   /\ payload_reservation_id request = Some r.
Proof.
  apply (request_shape cancel (afterTurn heldLine)
           {| session_id := "session"; action := cancel;
              payload_start_time := None;
              payload_reservation_id := Some "r-1" |}).
  vm_compute. reflexivity.
Defined.

(** X14: when the scheduler reports success, the decision is over: no
    proposal is left, queued or pending, nothing is loading, and the
    timeline gains the message of the assistant if the body carries one,
    and nothing else. *)
Theorem accepted_decision (act : ReservationDecisionAction) (code : nat)
    (payloadJson : JValue) (w : Widget) :
  ok code = true ->
  schedulerSuccessOf payloadJson = true ->
  let w' := handleReservationDecision_settled act
              (DecisionResponse code (JsonValue payloadJson)) w in
  liveProposals w' = 0
  /\ decisionLoading w' = None
  /\ messages w'
     = (messages w
        ++ if nonEmpty (assistantMessageOf payloadJson)
           then [assistantTurn w (assistantMessageOf payloadJson)]
           else [])%list.
Proof.
  intros Hok Hsuccess.
  unfold handleReservationDecision_settled, decisionTry, decisionFinally, liveProposals.
  cbv zeta. rewrite Hok, Hsuccess. cbn [negb].
  fold (assistantMessageOf payloadJson).
  destruct (nonEmpty (assistantMessageOf payloadJson)); destruct act; widget;
    rewrite ?app_nil_r; repeat split.
Qed.

Lemma accepted_decision_witness :
  let body := JObj [("scheduler", JObj [("success", JBool true)]);
                    ("assistant_message", JStr "预约已确认")] in
  let w := fst (handleReservationDecision confirm (afterTurn availabilityLine)) in
  let w' := handleReservationDecision_settled confirm
              (DecisionResponse 200 (JsonValue body)) w in
  liveProposals w' = 0
  /\ decisionLoading w' = None
  /\ messages w'
     = (messages w
        ++ if nonEmpty (assistantMessageOf body)
           then [assistantTurn w (assistantMessageOf body)]
           else [])%list.
Proof.
  apply (accepted_decision confirm 200
           (JObj [("scheduler", JObj [("success", JBool true)]);
                  ("assistant_message", JStr "预约已确认")])
           (fst (handleReservationDecision confirm (afterTurn availabilityLine))));
    reflexivity.
Defined.

(** X15: a response whose status is no success is not read: whatever its
    body, exactly one status turn with the status code is appended, no
    assistant turn, and nothing is loading any more. *)
Theorem refused_decision (act : ReservationDecisionAction) (code : nat)
    (body : JsonResult) (w : Widget) :
  ok code = false ->
  let w' := handleReservationDecision_settled act (DecisionResponse code body) w in
  messages w'
  = (messages w
     ++ [statusTurn w ("操作未完成：" ++ "操作失败 (" ++ decimal code ++ ")")])%list
  /\ decisionLoading w' = None.
Proof.
  intros Hok. unfold handleReservationDecision_settled, decisionFinally, decisionCatch.
  rewrite Hok. cbn [negb]. destruct act; widget; repeat split.
Qed.

Lemma refused_decision_witness :
  let body := JsonValue (JObj [("assistant_message", JStr "预约已确认")]) in
  let w := fst (handleReservationDecision confirm (afterTurn availabilityLine)) in
  let w' := handleReservationDecision_settled confirm (DecisionResponse 500 body) w in
  messages w'
  = (messages w
     ++ [statusTurn w ("操作未完成：" ++ "操作失败 (" ++ decimal 500 ++ ")")])%list
  /\ decisionLoading w' = None.
Proof.
  apply (refused_decision confirm 500
           (JsonValue (JObj [("assistant_message", JStr "预约已确认")]))
           (fst (handleReservationDecision confirm (afterTurn availabilityLine)))).
  reflexivity.
Defined.

(** X16: however a decision request ends, settling it appends at most two
    turns, none of them a user turn, resets [decisionLoading], and for a
    cancel leaves no proposal. *)
Theorem settled_decision (act : ReservationDecisionAction) (outcome : DecisionOutcome)
    (w : Widget) :
  let w' := handleReservationDecision_settled act outcome w in
  decisionLoading w' = None
  /\ (act = cancel -> liveProposals w' = 0)
  /\ exists more,
      messages w' = (messages w ++ more)%list
      /\ length more <= 2
      /\ Forall (fun m => role m <> user) more.
Proof.
  unfold handleReservationDecision_settled, decisionFinally, decisionCatch, decisionTry,
    liveProposals.
  cbv zeta.
  repeat match goal with
         | |- context [if ?b then _ else _] => destruct b
         | |- context [match ?x with DecisionRejected _ => _ | DecisionResponse _ _ => _ end] =>
             destruct x
         | |- context [match ?x with JsonValue _ => _ | JsonRejected _ => _ end] =>
             destruct x
         | |- context [match ?x with confirm => _ | cancel => _ end] => destruct x
         | |- context [match ?x with Some _ => _ | None => _ end] => destruct x
         | |- context [match ?x with JNull => _ | _ => _ end] => destruct x
         end;
    widget;
    (split; [reflexivity |]);
    (split; [try reflexivity; discriminate |]);
    rewrite <- ?app_assoc;
    first [ eexists; split; [reflexivity |]; split; [cbn; lia |];
            repeat constructor; discriminate
          | exists []; split; [now rewrite app_nil_r |]; split; [cbn; lia | constructor] ].
Qed.

(** ** What every transition does to the timeline *)

Section Evolution.
Variable numberOfLiteral : string -> JsNumber.

(** A relation between the widget before and after, closed under the three
    ways the component touches the timeline. *)
Variable R : Widget -> Widget -> Prop.
Hypothesis R_trans : forall a b c, R a b -> R b c -> R a c.
Hypothesis R_frame :
  forall w w', messages w' = messages w -> nextUuid w' = nextUuid w -> R w w'.
Hypothesis R_append : forall r c t w, R w (appendNew r c t w).
Hypothesis R_update : forall i c w, R w (updateMessageContent i c w).

Ltac evolve :=
  lazymatch goal with
  | |- R _ (appendNew _ _ _ ?y) => apply (R_trans _ y); [evolve | apply R_append]
  | |- R _ (updateMessageContent _ _ ?y) => apply (R_trans _ y); [evolve | apply R_update]
  | |- R _ (setPendingProposal _ ?y) =>
      apply (R_trans _ y); [evolve | apply R_frame; reflexivity]
  | |- R _ (setQueuedProposalRef _ ?y) =>
      apply (R_trans _ y); [evolve | apply R_frame; reflexivity]
  | |- R _ (setDecisionLoading _ ?y) =>
      apply (R_trans _ y); [evolve | apply R_frame; reflexivity]
  | |- R _ (setActiveAssistantMessageId _ ?y) =>
      apply (R_trans _ y); [evolve | apply R_frame; reflexivity]
  | |- R _ (setIsStreaming _ ?y) =>
      apply (R_trans _ y); [evolve | apply R_frame; reflexivity]
  | |- R _ (flushQueuedProposal ?y) =>
      apply (R_trans _ y);
      [evolve | apply R_frame; [apply flush_messages
                               | unfold flushQueuedProposal;
                                 now destruct (queuedProposalRef y)]]
  | |- R ?w ?w => apply R_frame; reflexivity
  | |- _ => assumption
  end.

Lemma R_ensure c st w0 :
  R w0 (fst st) -> R w0 (fst (ensureAssistantMessage c st)).
Proof.
  destruct st as [w t]. cbn [fst]. intros H. unfold ensureAssistantMessage.
  destruct (assistantMessageId t) as [i |]; cbn [fst randomUUID].
  - evolve.
  - apply (R_trans _ (appendNew assistant c text w)); [evolve |].
    apply R_frame.
    + now rewrite appendMessage_messages, appendNew_messages.
    + now rewrite appendMessage_nextUuid, appendNew_nextUuid.
Qed.

Lemma R_tool name output w w' w0 :
  handleToolEvent name output w = Some w' -> R w0 w -> R w0 w'.
Proof.
  intros Htool H. revert Htool.
  unfold handleToolEvent, handleAvailability, handleUpdateStatus. cbv zeta.
  repeat match goal with
         | |- context [if ?b then _ else _] => destruct b
         | |- context [match proposalOf ?x with _ => _ end] => destruct (proposalOf x)
         end;
    intros [= <-]; evolve.
Qed.

Lemma R_dispatch event st w0 : R w0 (fst st) -> R w0 (fst (dispatch event st)).
Proof.
  destruct st as [w t]. cbn [fst]. intros H.
  destruct event as [c | c | name output |]; cbn [dispatch].
  - destruct (nonEmpty _); [| exact H]. now apply R_ensure.
  - pose proof (R_ensure c (w, {| assistantMessageId := assistantMessageId t;
                                  assembledContent := c |}) w0 H) as H1.
    destruct (ensureAssistantMessage c _) as [w1 t1]. cbn [fst] in *. evolve.
  - destruct (handleToolEvent name output w) as [w' |] eqn:E; [| exact H].
    exact (R_tool _ _ _ _ _ E H).
  - cbn [fst]. evolve.
Qed.

Lemma R_processLine line st w0 :
  R w0 (fst st) -> R w0 (fst (processLine numberOfLiteral line st)).
Proof.
  intros H. unfold processLine.
  destruct (negb (nonEmpty line)); [exact H |].
  destruct (JSON_parse numberOfLiteral line) as [v |]; [| exact H].
  destruct (eventOf v) as [event |]; [| exact H].
  now apply R_dispatch.
Qed.

Lemma R_forLines lines st w0 :
  R w0 (fst st) -> R w0 (fst (forLines (processLine numberOfLiteral) lines st)).
Proof.
  revert st. induction lines as [| l ls IH]; intros st H; [exact H |].
  unfold forLines in *. cbn [fold_left]. apply IH.
  destruct (nonEmpty (trim l)); [now apply R_processLine | exact H].
Qed.

Lemma R_onChunk r value w0 :
  R w0 (fst (handled r)) ->
  R w0 (fst (handled (onChunk (processLine numberOfLiteral) r value))).
Proof.
  intros H. unfold onChunk. destruct (decode (decoder r) value) as [d out].
  cbn [handled]. now apply R_forLines.
Qed.

Lemma R_onDone r w0 :
  R w0 (fst (handled r)) -> R w0 (fst (onDone (processLine numberOfLiteral) r)).
Proof.
  intros H. unfold onDone. cbv zeta.
  destruct (nonEmpty _); [now apply R_processLine | exact H].
Qed.

Lemma R_streamCatch e st w0 : R w0 (fst st) -> R w0 (fst (streamCatch e st)).
Proof.
  destruct st as [w t]. cbn [fst]. intros H. unfold streamCatch.
  destruct e as [m | m |]; [exact H | |]; cbn [fst snd];
    (destruct (assistantMessageId t) as [i |];
     [| pose proof (R_ensure MSG_FALLBACK (w, t) w0 H) as H1;
        destruct (ensureAssistantMessage MSG_FALLBACK (w, t)) as [w1 t1] ]);
    cbn [fst] in *; evolve.
Qed.

Lemma R_decision act w w0 : R w0 w -> R w0 (fst (handleReservationDecision act w)).
Proof.
  intros H. unfold handleReservationDecision.
  destruct (pendingProposal w); [| exact H].
  repeat match goal with
         | |- context [if ?b then _ else _] => destruct b
         end; cbn [fst]; evolve.
Qed.

Lemma R_settled act outcome w w0 :
  R w0 w -> R w0 (handleReservationDecision_settled act outcome w).
Proof.
  intros H.
  unfold handleReservationDecision_settled, decisionFinally, decisionCatch, decisionTry.
  cbv zeta.
  repeat match goal with
         | |- context [if ?b then _ else _] => destruct b
         | |- context [match ?x with DecisionRejected _ => _ | DecisionResponse _ _ => _ end] =>
             destruct x
         | |- context [match ?x with JsonValue _ => _ | JsonRejected _ => _ end] =>
             destruct x
         | |- context [match ?x with confirm => _ | cancel => _ end] => destruct x
         | |- context [match ?x with Some _ => _ | None => _ end] => destruct x
         | |- context [match ?x with JNull => _ | _ => _ end] => destruct x
         end; evolve.
Qed.

Lemma R_step w w' : step numberOfLiteral w w' -> R w w'.
Proof.
  assert (Hrefl : forall x, R x x) by (intros; apply R_frame; reflexivity).
  intros Hstep. destruct Hstep.
  - apply R_frame; unfold openPanel; now destruct b.
  - apply R_frame; reflexivity.
  - evolve.
  - apply R_onChunk, Hrefl.
  - unfold streamFinally.
    pose proof (R_onDone {| buffer := buf; decoder := d; handled := (w, t) |} w (Hrefl w))
      as H.
    evolve.
  - unfold streamFinally. pose proof (R_streamCatch e (w, t) w (Hrefl w)) as H. evolve.
  - apply R_decision, Hrefl.
  - apply R_settled, Hrefl.
Qed.
End Evolution.

Lemma continues_trans a b c : continues a b -> continues b c -> continues a c.
Proof.
  unfold continues. intros [m1 H1] [m2 H2]. exists (m1 ++ m2)%list.
  now rewrite H2, H1, app_assoc.
Qed.

Lemma continues_frame w w' :
  messages w' = messages w -> nextUuid w' = nextUuid w -> continues w w'.
Proof. unfold continues. intros -> _. exists []. now rewrite app_nil_r. Qed.

Lemma continues_append r c t w : continues w (appendNew r c t w).
Proof. unfold continues. rewrite appendNew_messages, map_app. eexists. reflexivity. Qed.

Lemma continues_update i c w : continues w (updateMessageContent i c w).
Proof.
  unfold continues, updateMessageContent. cbn [messages setMessages].
  exists []. rewrite app_nil_r, map_map. apply map_ext. intros m.
  now destruct (MessageId_eqb (id m) i).
Qed.

(** X17: no transition of the widget removes a turn, moves one, or changes
    its identifier, role or type: the timeline after continues the
    timeline before.  Only the content of a turn can be rewritten. *)
Theorem timeline_only_grows (numberOfLiteral : string -> JsNumber) (w w' : Widget) :
  step numberOfLiteral w w' -> continues w w'.
Proof.
  apply (R_step numberOfLiteral continues continues_trans continues_frame
           continues_append continues_update).
Qed.

Lemma timeline_only_grows_witness :
  continues (afterTurn availabilityLine)
    (handleReservationDecision_settled cancel
       (DecisionResponse 200
          (JsonValue (JObj [("assistant_message", JStr "已取消")])))
       (afterTurn availabilityLine)).
Proof.
  apply (timeline_only_grows literalNumber (afterTurn availabilityLine)).
  apply step_settled.
Defined.

Lemma distinct_frame w w' :
  messages w' = messages w -> nextUuid w' = nextUuid w -> distinctIds w -> distinctIds w'.
Proof. unfold distinctIds, freshIds. intros -> ->. tauto. Qed.

Lemma distinct_append r c t w : distinctIds w -> distinctIds (appendNew r c t w).
Proof.
  intros [Hnodup Hfresh]. split; [| now apply fresh_appendNew].
  rewrite appendNew_messages, map_app. cbn [map id].
  apply NoDup_app; [exact Hnodup | repeat constructor; intros [] |].
  intros i Hin [<- | []]. apply in_map_iff in Hin as (m & Hid & Hin).
  specialize (Hfresh m (nextUuid w) Hin Hid). lia.
Qed.

Lemma distinct_update i c w : distinctIds w -> distinctIds (updateMessageContent i c w).
Proof.
  intros [Hnodup Hfresh]. split; [| now apply fresh_update].
  unfold updateMessageContent. cbn [messages setMessages].
  rewrite map_map.
  replace (map (fun x => id (if MessageId_eqb (id x) i then withContent c x else x))
             (messages w))
    with (map id (messages w)); [exact Hnodup |].
  apply map_ext. intros m. now destruct (MessageId_eqb (id m) i).
Qed.

(** X18: in every state the widget can reach the turns of the timeline
    have pairwise distinct identifiers, so that [updateMessageContent]
    rewrites one turn at most. *)
Theorem identifiers_distinct (numberOfLiteral : string -> JsNumber) (w : Widget) :
  reachable numberOfLiteral w -> NoDup (map id (messages w)).
Proof.
  intros Hreach. enough (H : distinctIds w) by exact (proj1 H).
  induction Hreach as [session | w w' _ IH Hstep].
  - split; [| apply initial_fresh]. cbn. repeat constructor. intros [].
  - revert IH.
    apply (R_step numberOfLiteral (fun a b => distinctIds a -> distinctIds b)); auto.
    + exact distinct_frame.
    + exact distinct_append.
    + exact distinct_update.
Qed.

Lemma identifiers_distinct_witness :
  NoDup (map id (messages (afterTurn availabilityLine))).
Proof.
  apply (identifiers_distinct literalNumber), afterTurn_reachable.
Defined.

(** ** Sending a message *)

Section Sending.
Variable numberOfLiteral : string -> JsNumber.

(** X19: the form and the send button agree: when the button is disabled,
    because a stream is open or the input is blank, neither the submit
    handler nor any key does anything: no message is appended and no
    stream is opened. *)
Theorem send_guard (outcome : StreamOutcome) (w : Widget) :
  sendDisabled w = true ->
  handleSubmit numberOfLiteral outcome w = w
  /\ forall key shiftKey, handleKeyDown numberOfLiteral key shiftKey outcome w = w.
Proof.
  unfold sendDisabled, handleKeyDown, handleSubmit. cbv zeta.
  rewrite (orb_comm (isStreaming w)). intros ->. split; [reflexivity |].
  intros key shiftKey. now destruct (_ && _).
Qed.
End Sending.

Lemma send_guard_witness :
  let w := setInputValue (bytes [32; 9; 227; 128; 128]) (afterTurn availabilityLine) in
  let outcome := StreamResponse 200 (Some ([demoChunk1; demoChunk2], None)) in
  handleSubmit literalNumber outcome w = w
  /\ forall key shiftKey, handleKeyDown literalNumber key shiftKey outcome w = w.
Proof.
  apply (send_guard literalNumber
           (StreamResponse 200 (Some ([demoChunk1; demoChunk2], None)))
           (setInputValue (bytes [32; 9; 227; 128; 128]) (afterTurn availabilityLine))).
  vm_compute. reflexivity.
Defined.

(** ** The endpoints *)

Lemma endsWithChar_snoc c s : endsWithChar c (s ++ str1 c) = true.
Proof.
  induction s as [| x s IH]; cbn [append endsWithChar str1].
  - apply Ascii.eqb_refl.
  - destruct (s ++ str1 c) eqn:E; [| exact IH].
    destruct s; discriminate E.
Qed.

Lemma sliceOffLast_snoc c s : sliceOffLast (s ++ str1 c) = s.
Proof.
  induction s as [| x s IH]; cbn [append sliceOffLast str1]; [reflexivity |].
  destruct (s ++ str1 c) eqn:E; [destruct s; discriminate E |].
  now rewrite IH.
Qed.

(** X20: one slash at the end of the configured base address makes no
    difference to the endpoints, which are the base address followed by
    the two paths; without a configured address the paths are relative. *)
Theorem trailing_slash (base : string) :
  endsWithChar "/" base = false ->
  API_ENDPOINTS (Some (base ++ "/")) = API_ENDPOINTS (Some base)
  /\ chatStream (API_ENDPOINTS (Some base)) = base ++ "/api/agent/chat/stream"
  /\ reservationDecision (API_ENDPOINTS (Some base))
     = base ++ "/api/agent/reservations/decision"
  /\ chatStream (API_ENDPOINTS None) = "/api/agent/chat/stream".
Proof.
  intros Hbase.
  assert (H1 : API_BASE_URL (Some (base ++ "/")) = base).
  { unfold API_BASE_URL, normalizedBaseUrl, rawBaseUrl.
    change "/" with (str1 "/"%char).
    now rewrite endsWithChar_snoc, sliceOffLast_snoc. }
  assert (H2 : API_BASE_URL (Some base) = base).
  { unfold API_BASE_URL, normalizedBaseUrl, rawBaseUrl. now rewrite Hbase. }
  unfold API_ENDPOINTS. cbn [chatStream reservationDecision]. rewrite H1, H2.
  repeat split.
Qed.

Lemma trailing_slash_witness :
  API_ENDPOINTS (Some ("http://127.0.0.1:8000" ++ "/"))
  = API_ENDPOINTS (Some "http://127.0.0.1:8000")
  /\ chatStream (API_ENDPOINTS (Some "http://127.0.0.1:8000"))
     = "http://127.0.0.1:8000" ++ "/api/agent/chat/stream"
  /\ reservationDecision (API_ENDPOINTS (Some "http://127.0.0.1:8000"))
     = "http://127.0.0.1:8000" ++ "/api/agent/reservations/decision"
  /\ chatStream (API_ENDPOINTS None) = "/api/agent/chat/stream".
Proof.
  apply (trailing_slash "http://127.0.0.1:8000"). reflexivity.
Defined.

(** ** Tokens and messages in any stream *)

Lemma MessageId_eqb_refl i : MessageId_eqb i i = true.
Proof. destruct i; cbn; [reflexivity | apply Nat.eqb_refl]. Qed.

Lemma MessageId_eqb_neq a b : a <> b -> MessageId_eqb a b = false.
Proof.
  destruct a as [| n], b as [| m]; cbn; intros H; try reflexivity; try contradiction.
  apply Nat.eqb_neq. intros ->. now apply H.
Qed.

Lemma others_unchanged i c l :
  (forall m, In m l -> id m <> i) ->
  map (fun msg => if MessageId_eqb (id msg) i then withContent c msg else msg) l = l.
Proof.
  intros H. induction l as [| m ms IH]; [reflexivity |].
  cbn [map]. rewrite IH by (intros; apply H; now right).
  now rewrite (MessageId_eqb_neq _ _ (H m (or_introl eq_refl))).
Qed.

(** The turn a stream has opened is the one turn that
    [ensureAssistantMessage] rewrites. *)
Lemma ensure_rewrites_open_turn i old c before after w t :
  assistantMessageId t = Some i ->
  messages w = (before ++ turnOf i old :: after)%list ->
  (forall m, In m (before ++ after)%list -> id m <> i) ->
  messages (fst (ensureAssistantMessage c (w, t))) = (before ++ turnOf i c :: after)%list.
Proof.
  intros Hi Hmessages Hothers. unfold ensureAssistantMessage. rewrite Hi.
  cbn [fst]. unfold updateMessageContent. cbn [messages setMessages].
  rewrite Hmessages, map_app. cbn [map].
  rewrite !others_unchanged by (intros; apply Hothers, in_or_app; auto).
  cbn [id turnOf]. now rewrite MessageId_eqb_refl.
Qed.

Lemma ensure_opens_turn c w t :
  assistantMessageId t = None ->
  messages (fst (ensureAssistantMessage c (w, t))) = (messages w ++ [assistantTurn w c])%list
  /\ assistantMessageId (snd (ensureAssistantMessage c (w, t))) = Some (uuid (nextUuid w)).
Proof.
  intros Hnone. unfold ensureAssistantMessage. rewrite Hnone.
  cbn [fst snd randomUUID assistantMessageId]. now rewrite appendMessage_messages.
Qed.

Lemma ensure_keeps_turn c w t i :
  assistantMessageId t = Some i ->
  snd (ensureAssistantMessage c (w, t)) = t.
Proof. intros Hi. unfold ensureAssistantMessage. now rewrite Hi. Qed.

Lemma in_middle (A : Type) (x : A) (before after : list A) :
  In x (before ++ x :: after).
Proof. apply in_or_app. right. now left. Qed.

(** After [ensureAssistantMessage] the stream shows the text it was given. *)
Lemma shows_ensure c w t :
  shows (w, t) ->
  shows (ensureAssistantMessage c
           (w, {| assistantMessageId := assistantMessageId t; assembledContent := c |})).
Proof.
  intros [Hfresh Hturn]. cbn [fst snd] in *.
  set (t' := {| assistantMessageId := assistantMessageId t; assembledContent := c |}).
  split; [exact (fresh_ensure c (w, t') Hfresh) |].
  destruct (assistantMessageId t) as [i |] eqn:Hi.
  - destruct Hturn as (before & after & Hmessages & Hothers).
    rewrite (ensure_keeps_turn c w t' i eq_refl). cbn [assistantMessageId assembledContent t'].
    exists before, after. split; [| exact Hothers].
    exact (ensure_rewrites_open_turn i _ c before after w t' eq_refl Hmessages Hothers).
  - destruct (ensure_opens_turn c w t' eq_refl) as [Hmessages Hid].
    unfold ensureAssistantMessage in *. cbn [assistantMessageId t'] in *.
    cbn [fst snd randomUUID assistantMessageId assembledContent] in *.
    exists (messages w), []. split; [exact Hmessages |].
    rewrite app_nil_r. intros m Hin Hid'.
    specialize (Hfresh m (nextUuid w) Hin Hid'). lia.
Qed.

Lemma shows_more w w' t :
  shows (w, t) ->
  freshIds w' ->
  (messages w' = messages w
   \/ exists m, messages w' = (messages w ++ [m])%list /\ id m = uuid (nextUuid w)) ->
  shows (w', t).
Proof.
  intros [Hfresh Hturn] Hfresh' Hmessages. cbn [fst snd] in *.
  split; [exact Hfresh' |]. cbn [fst snd].
  destruct (assistantMessageId t) as [i |]; [| exact Hturn].
  destruct Hturn as (before & after & Hw & Hothers).
  destruct Hmessages as [-> | (m & -> & Hid)].
  - now exists before, after.
  - exists before, (after ++ [m])%list. split.
    + rewrite Hw, <- app_assoc. reflexivity.
    + intros x Hin. rewrite app_assoc in Hin.
      apply in_app_or in Hin as [Hin | [<- | []]]; [now apply Hothers |].
      rewrite Hid. intros <-.
      pose proof (Hfresh (turnOf (uuid (nextUuid w)) (assembledContent t)) (nextUuid w)) as H.
      rewrite Hw in H. specialize (H (in_middle _ _ _ _) eq_refl). lia.
Qed.

Lemma tool_messages name output w w' :
  handleToolEvent name output w = Some w' ->
  messages w' = messages w
  \/ exists m, messages w' = (messages w ++ [m])%list /\ id m = uuid (nextUuid w).
Proof.
  unfold handleToolEvent.
  destruct (name =? "check_device_availability")%string eqn:Echeck;
    destruct (name =? "update_reservation_status")%string eqn:Eupdate.
  - apply String.eqb_eq in Echeck, Eupdate. subst name. discriminate Eupdate.
  - unfold handleAvailability. cbv zeta.
    repeat match goal with
           | |- context [if ?b then _ else _] => destruct b
           | |- context [match proposalOf ?x with _ => _ end] => destruct (proposalOf x)
           end;
      intros [= <-]; widget;
      first [ now left | right; eexists; split; reflexivity ].
  - unfold handleUpdateStatus. cbv zeta.
    destruct (flagOf "success" _); intros [= <-]; widget;
      right; eexists; split; reflexivity.
  - intros [= <-]. now left.
Qed.

Lemma shows_flush w t : shows (w, t) -> shows (flushQueuedProposal w, t).
Proof.
  intros H. apply (shows_more w _ t H).
  - apply fresh_flush, H.
  - left. apply flush_messages.
Qed.

Lemma shows_dispatch ev st : shows st -> shows (dispatch ev st).
Proof.
  destruct st as [w t]. intros H.
  destruct ev as [c | c | name output |]; cbn [dispatch].
  - destruct (nonEmpty (assembledContent t ++ c)) eqn:Htext; [now apply shows_ensure |].
    destruct (assembledContent t ++ c) eqn:Hempty; [| discriminate].
    destruct H as [Hfresh Hturn]. split; [exact Hfresh |]. cbn [fst snd] in *.
    destruct (assistantMessageId t) as [i |]; [| reflexivity].
    assert (Hold : assembledContent t = "")
      by (destruct (assembledContent t); [reflexivity | discriminate]).
    now rewrite Hold in Hturn.
  - pose proof (shows_ensure c w t H) as H1.
    destruct (ensureAssistantMessage c _) as [w1 t1]. now apply shows_flush.
  - destruct (handleToolEvent name output w) as [w' |] eqn:E; [| exact H].
    apply (shows_more w w' t H).
    + exact (fresh_handleToolEvent _ _ _ _ (proj1 H) E).
    + exact (tool_messages _ _ _ _ E).
  - now apply shows_flush.
Qed.

Section AnyStream.
Variable numberOfLiteral : string -> JsNumber.

Lemma shows_afterLines lines st : shows st -> shows (afterLines numberOfLiteral lines st).
Proof.
  revert st. induction lines as [| l ls IH]; intros st H; [exact H |].
  unfold afterLines in *. cbn [fold_left]. apply IH.
  unfold processLine.
  destruct (negb (nonEmpty l)); [exact H |].
  destruct (JSON_parse numberOfLiteral l) as [v |]; [| exact H].
  destruct (eventOf v) as [ev |]; [| exact H].
  now apply shows_dispatch.
Qed.

Lemma shows_start w : freshIds w -> shows (w, newTurn).
Proof. intros H. split; [exact H | reflexivity]. Qed.

(** C8, amended to what the code does: at any point of any stream, a token
    event adds its content to the accumulated text; when that text is
    still empty nothing else happens; when it is not, the token event
    creates the assistant turn with that text if the stream has not opened
    one yet, and otherwise sets the content of that same turn, and of no
    other, to that text. *)
Theorem token_in_any_stream (w : Widget) (lines : list string) (c : string) :
  freshIds w ->
  let (w1, t1) := afterLines numberOfLiteral lines (w, newTurn) in
  let (w2, t2) := dispatch (StreamTokenEvent c) (w1, t1) in
  assembledContent t2 = assembledContent t1 ++ c
  /\ (assembledContent t1 ++ c = "" -> w2 = w1 /\ t2 = t1)
  /\ (assembledContent t1 ++ c <> "" ->
      match assistantMessageId t1 with
      | None =>
          messages w2 = (messages w1 ++ [assistantTurn w1 (assembledContent t1 ++ c)])%list
          /\ assistantMessageId t2 = Some (uuid (nextUuid w1))
      | Some i =>
          assistantMessageId t2 = Some i
          /\ exists before after,
              messages w1 = (before ++ turnOf i (assembledContent t1) :: after)%list
              /\ messages w2
                 = (before ++ turnOf i (assembledContent t1 ++ c) :: after)%list
      end).
Proof.
  intros Hfresh.
  pose proof (shows_afterLines lines (w, newTurn) (shows_start w Hfresh)) as Hshows.
  destruct (afterLines numberOfLiteral lines (w, newTurn)) as [w1 [i a]].
  destruct Hshows as [_ Hturn]. cbn [fst snd assistantMessageId assembledContent] in *.
  cbn [dispatch assistantMessageId assembledContent].
  set (t' := {| assistantMessageId := i; assembledContent := a ++ c |}).
  destruct (nonEmpty (a ++ c)) eqn:Htext.
  - assert (Hne : a ++ c <> "") by (intros E; rewrite E in Htext; discriminate).
    destruct i as [i |].
    + destruct Hturn as (before & after & Hmessages & Hothers).
      pose proof (ensure_rewrites_open_turn i a (a ++ c) before after w1 t' eq_refl
                    Hmessages Hothers) as Hrewrite.
      pose proof (ensure_keeps_turn (a ++ c) w1 t' i eq_refl) as Hkeep.
      destruct (ensureAssistantMessage (a ++ c) (w1, t')) as [w2 t2].
      cbn [fst snd] in *. subst t2. cbn [assembledContent assistantMessageId t'].
      split; [reflexivity |]. split; [intros E; contradiction |].
      intros _. split; [reflexivity |]. now exists before, after.
    + destruct (ensure_opens_turn (a ++ c) w1 t' eq_refl) as [Hmessages Hid].
      unfold ensureAssistantMessage in *. cbn [assistantMessageId t'] in *.
      cbn [fst snd randomUUID assistantMessageId assembledContent] in *.
      split; [reflexivity |]. split; [intros E; contradiction |].
      intros _. split; [exact Hmessages | reflexivity].
  - destruct (a ++ c) eqn:Hempty; [| discriminate].
    assert (Ha : a = "") by (destruct a; [reflexivity | discriminate]).
    subst a. subst t'. cbn [assembledContent].
    split; [reflexivity |]. split; [intros _; split; reflexivity |].
    intros Hne. contradiction.
Qed.

(** X6: at any point of any stream, a [message] event supersedes what the
    stream has accumulated: the accumulator holds the content of the
    message, and the assistant turn of the stream reads it: the turn is
    created if the stream has not opened one yet, otherwise that same turn,
    and no other, is rewritten. *)
Theorem message_in_any_stream (w : Widget) (lines : list string) (c : string) :
  freshIds w ->
  let (w1, t1) := afterLines numberOfLiteral lines (w, newTurn) in
  let (w2, t2) := dispatch (StreamMessageEvent c) (w1, t1) in
  assembledContent t2 = c
  /\ match assistantMessageId t1 with
     | None =>
         messages w2 = (messages w1 ++ [assistantTurn w1 c])%list
         /\ assistantMessageId t2 = Some (uuid (nextUuid w1))
     | Some i =>
         assistantMessageId t2 = Some i
         /\ exists before after,
             messages w1 = (before ++ turnOf i (assembledContent t1) :: after)%list
             /\ messages w2 = (before ++ turnOf i c :: after)%list
     end.
Proof.
  intros Hfresh.
  pose proof (shows_afterLines lines (w, newTurn) (shows_start w Hfresh)) as Hshows.
  destruct (afterLines numberOfLiteral lines (w, newTurn)) as [w1 [i a]].
  destruct Hshows as [_ Hturn]. cbn [fst snd assistantMessageId assembledContent] in *.
  cbn [dispatch assistantMessageId assembledContent].
  set (t' := {| assistantMessageId := i; assembledContent := c |}).
  destruct i as [i |].
  - destruct Hturn as (before & after & Hmessages & Hothers).
    pose proof (ensure_rewrites_open_turn i a c before after w1 t' eq_refl
                  Hmessages Hothers) as Hrewrite.
    pose proof (ensure_keeps_turn c w1 t' i eq_refl) as Hkeep.
    destruct (ensureAssistantMessage c (w1, t')) as [w2 t2].
    cbn [fst snd] in *. subst t2. cbn [assembledContent assistantMessageId t'].
    rewrite flush_messages.
    split; [reflexivity |]. split; [reflexivity |]. now exists before, after.
  - destruct (ensure_opens_turn c w1 t' eq_refl) as [Hmessages Hid].
    unfold ensureAssistantMessage in *. cbn [assistantMessageId t'] in *.
    cbn [fst snd randomUUID assistantMessageId assembledContent] in *.
    rewrite flush_messages.
    split; [reflexivity |]. split; [exact Hmessages | reflexivity].
Qed.
End AnyStream.

Lemma token_in_any_stream_witness :
  let (w1, t1) := afterLines literalNumber [demoLine1; unavailableLine]
                    (initialWidget "session", newTurn) in
  let (w2, t2) := dispatch (StreamTokenEvent "好") (w1, t1) in
  assembledContent t2 = assembledContent t1 ++ "好"
  /\ (assembledContent t1 ++ "好" = "" -> w2 = w1 /\ t2 = t1)
  /\ (assembledContent t1 ++ "好" <> "" ->
      match assistantMessageId t1 with
      | None =>
          messages w2
          = (messages w1 ++ [assistantTurn w1 (assembledContent t1 ++ "好")])%list
          /\ assistantMessageId t2 = Some (uuid (nextUuid w1))
      | Some i =>
          assistantMessageId t2 = Some i
          /\ exists before after,
              messages w1 = (before ++ turnOf i (assembledContent t1) :: after)%list
              /\ messages w2
                 = (before ++ turnOf i (assembledContent t1 ++ "好") :: after)%list
      end).
Proof.
  apply (token_in_any_stream literalNumber (initialWidget "session")
           [demoLine1; unavailableLine] "好").
  apply initial_fresh.
Defined.

Lemma message_in_any_stream_witness :
  let (w1, t1) := afterLines literalNumber [demoLine1; unavailableLine]
                    (initialWidget "session", newTurn) in
  let (w2, t2) := dispatch (StreamMessageEvent "收到") (w1, t1) in
  assembledContent t2 = "收到"
  /\ match assistantMessageId t1 with
     | None =>
         messages w2 = (messages w1 ++ [assistantTurn w1 "收到"])%list
         /\ assistantMessageId t2 = Some (uuid (nextUuid w1))
     | Some i =>
         assistantMessageId t2 = Some i
         /\ exists before after,
             messages w1 = (before ++ turnOf i (assembledContent t1) :: after)%list
             /\ messages w2 = (before ++ turnOf i "收到" :: after)%list
     end.
Proof.
  apply (message_in_any_stream literalNumber (initialWidget "session")
           [demoLine1; unavailableLine] "收到").
  apply initial_fresh.
Defined.

(** The stream of the two examples above: the token has opened the turn,
    the status turn of the tool result stands after it, and the next token
    rewrites the turn in the middle of the timeline. *)
Example token_after_status_turn :
  map content
    (messages (fst (dispatch (StreamTokenEvent "好")
                      (afterLines literalNumber [demoLine1; unavailableLine]
                         (initialWidget "session", newTurn)))))
  = [content INITIAL_MESSAGE; "您好"; MSG_UNAVAILABLE].
Proof. vm_compute. reflexivity. Qed.
